(** * asyncprawcore: the session's request orchestration

    A shallow embedding of [asyncprawcore/sessions.py] (class [Session]) and
    [asyncprawcore/requestor.py] (class [Requestor]).  Python objects that are
    mutated in place (the caller's [params] and [data] dictionaries) live in
    a heap of dictionaries; the authorizer's token, the transport and the
    random generator are threaded through a [World]; every observable effect
    (sleep, transport call, token invalidation, refresh, retry warning) is
    appended to the world's trace.  Sleep durations are binary64 numbers, kept
    as the rationals they denote.  The [log.debug] lines change neither
    state nor control flow and are left out. *)

From Stdlib Require Import ZArith QArith Qabs Qround Qpower Lqa String List.
From stdpp Require Import base gmap strings list sorting.
From Equations Require Import Equations.

Open Scope Z_scope.

(** ** Python values *)

(** Immutable Python values: what a JSON body decodes to, and what the
    caller's dictionaries hold. *)
#[warnings="-register-all"] Inductive PyVal :=
| PNone
| PBool (b : bool)
| PInt (n : Z)
| PStr (s : string)
| PList (l : list PyVal)
| PDict (items : list (string * PyVal)).

(** A dictionary object with string keys, and the heap of such objects.  A
    reference is an address in the heap, so two names can alias one object. *)
Abbreviation PyDict := (gmap string PyVal).
Abbreviation loc := positive.
Abbreviation Heap := (gmap loc PyDict).

(** The [data] argument: [None], a bytes or file-like payload, a reference to
    a [dict], or a list of [(key, value)] tuples. *)
Inductive Body :=
| BodyNone
| BodyRaw (payload : string)
| BodyDict (l : loc)
| BodyItems (items : list (string * PyVal)).

(** What a body looks like on the wire: a [dict] reference is read through
    the heap when the request leaves. *)
Inductive Payload :=
| PayNone
| PayRaw (payload : string)
| PayDict (d : PyDict)
| PayItems (items : list (string * PyVal)).

Definition snapshot (h : Heap) (b : Body) : Payload :=
  match b with
  | BodyNone => PayNone
  | BodyRaw s => PayRaw s
  | BodyDict l => PayDict (h !!! l)
  | BodyItems its => PayItems its
  end.

(** ** Transport data *)

Abbreviation Headers := (list (string * string)).

(** The positional and keyword arguments that reach the HTTP client. *)
Record Request := {
  req_method : string;
  req_url : string;
  req_allow_redirects : bool;
  req_data : Payload;
  req_json : option PyVal;
  req_params : PyDict;
  req_headers : Headers;
}.

Record Response := {
  status : Z;
  headers : Headers;
  body : string;
}.

(** [response.headers.get(name)]; header names are kept lower-case. *)
Fixpoint headers_get (name : string) (hs : Headers) : option string :=
  match hs with
  | [] => None
  | (k, v) :: hs' => if String.eqb k name then Some v else headers_get name hs'
  end.

(** An exception object raised by the HTTP client: its class and the classes
    it inherits from ([type(e).__mro__]).  A class is known by its module
    and its name, as in [requests.exceptions.ConnectionError]: the built-in
    [ConnectionError] and the one of [requests] are two classes. *)
Record PyException := {
  exc_mro : list string;
  exc_repr : string;
}.

Definition isinstance (e : PyException) (classes : list string) : bool :=
  existsb (fun cls => bool_decide (cls ∈ exc_mro e)) classes.

Inductive HttpOutcome :=
| Respond (r : Response)
| HttpRaise (e : PyException).

(** ** The error taxonomy *)

Inductive ErrorKind :=
| BadJSON
| BadRequest
| Conflict
| AuthError
| NotFound
| Redirect
| ServerError
| SpecialError
| TooLarge
| UnavailableForLegalReasons.

(** Everything a call can raise.  [AttributeError] is what reading
    [response.status] raises when [response] is [None]. *)
Inductive Raised :=
| ResponseException (kind : ErrorKind) (response : Response)
| RequestException (original_exception : PyException) (context : Request)
| AssertionError (unexpected_status : Z)
| AttributeError.

(** ** The world *)

(** The effects a call leaves behind, in order.  [Attempt retries] is a
    marker: one per entry into [_request_with_retries], with the value of its
    [retries] argument.  [Retrying] is the warning that [_do_retry] logs. *)
Inductive Event :=
| Attempt (retries : Z)
| Slept (seconds : Q)
| Refreshed (token : string)
| Sent (req : Request)
| TokenCleared
| Retrying (why : PyException + Z).

(** The authorizer's part of the world is its cached token, the time at
    which that token expires, and whether it has a [refresh] method.  Time is
    counted in transport calls: a call checks the token once per attempt, and
    one transport call lies between two checks. *)
Record World := {
  heap : Heap;
  access_token : option string;
  expires_at : nat;
  has_refresh : bool;
  trace : list Event;
}.

Definition emit (e : Event) (w : World) : World :=
  {| heap := heap w; access_token := access_token w;
     expires_at := expires_at w;
     has_refresh := has_refresh w; trace := trace w ++ [e] |}.

Definition with_token (t : option string) (expiry : nat) (w : World) : World :=
  {| heap := heap w; access_token := t; expires_at := expiry;
     has_refresh := has_refresh w; trace := trace w |}.

Definition with_heap (h : Heap) (w : World) : World :=
  {| heap := h; access_token := access_token w;
     expires_at := expires_at w;
     has_refresh := has_refresh w; trace := trace w |}.

Definition is_attempt (e : Event) : bool :=
  match e with Attempt _ => true | _ => false end.
Definition is_sent (e : Event) : bool :=
  match e with Sent _ => true | _ => false end.
Definition is_slept (e : Event) : bool :=
  match e with Slept _ => true | _ => false end.
Definition is_refreshed (e : Event) : bool :=
  match e with Refreshed _ => true | _ => false end.
Definition is_retrying (e : Event) : bool :=
  match e with Retrying _ => true | _ => false end.
Definition is_cleared (e : Event) : bool :=
  match e with TokenCleared => true | _ => false end.

Definition tally (p : Event -> bool) (t : list Event) : nat :=
  length (List.filter p t).

(** What the program cannot decide for itself: the answer of the HTTP client
    to its n-th call, the n-th draw of [random.random()], the JSON decoder
    ([None] stands for [ValueError]), the token the n-th refresh obtains and
    for how many transport calls beyond the next it stays valid, and the URL
    configuration. *)
Record Env := {
  http_request : nat -> Request -> HttpOutcome;
  random_random : nat -> Q;
  json_loads : string -> option PyVal;
  token_grant : nat -> string;
  token_lifetime : nat -> nat;
  oauth_url : string;
  urljoin : string -> string -> string;
}.

(** ** Status codes *)

(** Modelled from the spec: [requests.status_codes.codes] is not part of the
    sources; the numbers are those of the status table. *)
Module codes.

Definition ok := 200.
Definition created := 201.
Definition no_content := 204.
Definition found := 302.
Definition bad_request := 400.
Definition unauthorized := 401.
Definition forbidden := 403.
Definition not_found := 404.
Definition conflict := 409.
Definition request_entity_too_large := 413.
Definition media_type := 415.
Definition unavailable_for_legal_reasons := 451.
Definition internal_server_error := 500.
Definition bad_gateway := 502.
Definition service_unavailable := 503.
Definition gateway_timeout := 504.

End codes.

(** ** Floating point *)

(** Python's [float] is IEEE 754 binary64.  A finite binary64 number is kept
    as the rational it denotes; an operation is the exact operation followed
    by rounding to nearest, ties to even.  Rounding to infinity is left out:
    no value here exceeds 4. *)
Module binary64.

Definition pow2 (e : Z) : Q := (2 ^ e)%Q.

(** The exponent of the binade of a positive rational: [2 ^ e <= x < 2 ^ (e + 1)]. *)
Definition ilog2 (x : Q) : Z :=
  let e := Z.log2 (Qnum x) - Z.log2 (Zpos (Qden x)) in
  if Qle_bool (pow2 e) x then e else e - 1.

(** The exponent of the unit in the last place: 53 bits of precision, and
    [2 ^ -1074] for the subnormal numbers. *)
Definition ulp_exponent (x : Q) : Z := Z.max (ilog2 (Qabs x) - 52) (-1074).

(** The nearest integer, the even one of two that are equally near. *)
Definition round_half_even (x : Q) : Z :=
  let f := Qfloor x in
  match (x - inject_Z f ?= 1 # 2)%Q with
  | Lt => f
  | Gt => f + 1
  | Eq => if Z.even f then f else f + 1
  end.

Definition round (x : Q) : Q :=
  if Qeq_bool x 0 then 0%Q
  else let p := ulp_exponent x in
       (inject_Z (round_half_even (x / pow2 p)) * pow2 p)%Q.

(** The rationals that are finite binary64 numbers. *)
Definition is_float (x : Q) : bool :=
  Qeq_bool (round x) x && negb (Qle_bool (pow2 1024) (Qabs x)).

Definition add (x y : Q) : Q := round (x + y).
Definition mul (x y : Q) : Q := round (x * y).

End binary64.

(** ** Collaborators *)

(** Modelled from the spec: the authorizer classes are not part of the
    sources.  The spec gives the authorizer a validity check, a cached token,
    an optional refresh (a capability flag) and token invalidation, and
    speaks of tokens that expire.  The validity check is kept apart from the
    cached token: a cached token is valid until it expires, an invalidated
    one is gone, and a token that was just obtained is valid. *)
Module Authorizer.

(** The time of the validity check: the transport calls made so far. *)
Definition now (w : World) : nat := tally is_sent (trace w).

Definition is_valid (w : World) : bool :=
  match access_token w with
  | Some _ => (now w <? expires_at w)%nat
  | None => false
  end.

Definition _clear_access_token (w : World) : World :=
  emit TokenCleared (with_token None 0 w).

(** The n-th refresh obtains the n-th token of the grant server, valid for
    the next transport call and [token_lifetime env n] more. *)
Definition refresh (env : Env) (w : World) : World :=
  let n := tally is_refreshed (trace w) in
  emit (Refreshed (token_grant env n))
       (with_token (Some (token_grant env n))
                   (now w + S (token_lifetime env n)) w).

End Authorizer.

(** [requestor.py], class [Requestor]. *)
Module Requestor.

(** [request]: the answer of [self._http.request], with any exception it
    raises wrapped as [RequestException(exc, args, kwargs)].  [req] holds
    [args] and [kwargs]; the exceptions are instances of [Exception], which
    is what the handler catches.  The timeout is part of the HTTP client's
    behaviour. *)
Definition request (env : Env) (req : Request) (w : World)
  : (Raised + Response) * World :=
  let w' := emit (Sent req) w in
  match http_request env (tally is_sent (trace w)) req with
  | Respond r => (inr r, w')
  | HttpRaise exc => (inl (RequestException exc req), w')
  end.

End Requestor.

(** Modelled from the spec: the rate limiter is not part of the sources.  Its
    contract is [call(transportFn, headerProvider, ...)]: the header provider
    runs afresh on every call and its headers go with the request; the
    throttling delay is opaque. *)
Module RateLimiter.

Definition call {A : Type}
    (request_function : Request -> World -> A * World)
    (set_header_callback : World -> Headers * World)
    (req : Request) (w : World) : A * World :=
  let '(hs, w1) := set_header_callback w in
  request_function
    {| req_method := req_method req; req_url := req_url req;
       req_allow_redirects := req_allow_redirects req;
       req_data := req_data req; req_json := req_json req;
       req_params := req_params req; req_headers := hs |} w1.

End RateLimiter.

(** ** The session *)

(** The arguments that one logical call hands from attempt to attempt. *)
Record Call := {
  data : Body;
  files : option (list (string * string));
  json : option PyVal;
  method : string;
  params : loc;
  url : string;
}.

(** [sessions.py], class [Session]. *)
Module Session.

(** Lines 8-12 import the three classes from [requests.exceptions]. *)
Definition RETRY_EXCEPTIONS : list string :=
  ["requests.exceptions.ChunkedEncodingError";
   "requests.exceptions.ConnectionError";
   "requests.exceptions.ReadTimeout"]%string.

Definition RETRY_STATUSES : gset Z :=
  {[ 520; 522; codes.bad_gateway; codes.gateway_timeout;
     codes.internal_server_error; codes.service_unavailable ]}.

(** The values of the [STATUS_EXCEPTIONS] table: an exception class, or the
    helper [authorization_error_class]. *)
Inductive StatusHandler :=
| ExceptionClass (kind : ErrorKind)
| authorization_error_class.

Definition STATUS_EXCEPTIONS : gmap Z StatusHandler :=
  list_to_map
    [ (codes.bad_gateway, ExceptionClass ServerError);
      (codes.bad_request, ExceptionClass BadRequest);
      (codes.conflict, ExceptionClass Conflict);
      (codes.found, ExceptionClass Redirect);
      (codes.forbidden, authorization_error_class);
      (codes.gateway_timeout, ExceptionClass ServerError);
      (codes.internal_server_error, ExceptionClass ServerError);
      (codes.media_type, ExceptionClass SpecialError);
      (codes.not_found, ExceptionClass NotFound);
      (codes.request_entity_too_large, ExceptionClass TooLarge);
      (codes.service_unavailable, ExceptionClass ServerError);
      (codes.unauthorized, authorization_error_class);
      (codes.unavailable_for_legal_reasons,
        ExceptionClass UnavailableForLegalReasons);
      (520, ExceptionClass ServerError);
      (522, ExceptionClass ServerError) ].

Definition SUCCESS_STATUSES : gset Z := {[ codes.created; codes.ok ]}.

(** [STATUS_EXCEPTIONS[status](response)]: the exception that is raised.

    Modelled from the spec: [util.authorization_error_class] is not part of
    the sources; it is called with the response alone and, by the status
    table, yields an error of kind AuthError that carries the response.  Which
    variant of AuthError it picks is left open. *)
Definition instantiate (h : StatusHandler) (response : Response) : Raised :=
  match h with
  | ExceptionClass kind => ResponseException kind response
  | authorization_error_class => ResponseException AuthError response
  end.

(** Lines 77-78: [base + 2 * random.random()], from the counter and the
    random draw, in binary64 arithmetic. *)
Definition sleep_seconds (retries : Z) (draw : Q) : Q :=
  let base := if retries =? 2 then 0 else 2 in
  binary64.add (inject_Z base) (binary64.mul 2 draw).

(** [_retry_sleep]: [time.sleep(sleep_seconds)] when [retries < 3]. *)
Definition _retry_sleep (env : Env) (retries : Z) (w : World) : World :=
  if retries <? 3 then
    emit (Slept (sleep_seconds retries
                   (random_random env (tally is_slept (trace w))))) w
  else w.

(** [_set_header_callback] *)
Definition _set_header_callback (env : Env) (w : World) : Headers * World :=
  let w' :=
    if negb (Authorizer.is_valid w) && has_refresh w
    then Authorizer.refresh env w else w in
  ([("Authorization",
     "bearer " +:+ match access_token w' with Some t => t | None => "None" end)
   ]%string, w').

(** [_make_request]: a response, or the saved cause of a transport failure
    that may be retried, or the re-raised exception. *)
Definition _make_request (env : Env) (c : Call) (retries : Z) (w : World)
  : (Raised + (option Response * option PyException)) * World :=
  match
    RateLimiter.call (Requestor.request env) (_set_header_callback env)
      {| req_method := method c; req_url := url c;
         req_allow_redirects := false;
         req_data := snapshot (heap w) (data c); req_json := json c;
         req_params := heap w !!! params c; req_headers := [] |} w
  with
  | (inr response, w') => (inr (Some response, None), w')
  | (inl (RequestException original_exception ctx), w') =>
      if (retries <=? 1) || negb (isinstance original_exception RETRY_EXCEPTIONS)
      then (inl (RequestException original_exception ctx), w')
      else (inr (None, Some original_exception), w')
  | (inl other, w') => (inl other, w')
  end.

(** Lines 171-175: the 401 check that sets [do_retry]. *)
Definition unauthorized_check (response : option Response) (w : World)
  : bool * World :=
  match response with
  | Some r =>
      if status r =? codes.unauthorized
      then (has_refresh w, Authorizer._clear_access_token w)
      else (false, w)
  | None => (false, w)
  end.

(** Lines 177-181: the condition under which [_do_retry] is entered. *)
Definition retry_condition (retries : Z) (do_retry : bool)
    (response : option Response) : bool :=
  (retries >? 1) &&
  (do_retry ||
   match response with
   | None => true
   | Some r => bool_decide (status r ∈ RETRY_STATUSES)
   end).

(** Lines 193-205: what an attempt that is not retried returns or raises. *)
Definition resolve (env : Env) (response : option Response) (w : World)
  : (Raised + PyVal) * World :=
  match response with
  | None => (inl AttributeError, w)
  | Some r =>
      match STATUS_EXCEPTIONS !! status r with
      | Some handler => (inl (instantiate handler r), w)
      | None =>
          if status r =? codes.no_content then (inr PNone, w)
          else if bool_decide (status r ∈ SUCCESS_STATUSES) then
            if bool_decide (headers_get "content-length" (headers r) = Some "0"%string)
            then (inr (PStr EmptyString), w)
            else match json_loads env (body r) with
                 | Some v => (inr v, w)
                 | None => (inl (ResponseException BadJSON r), w)
                 end
          else (inl (AssertionError (status r)), w)
      end
  end.

(** [_do_retry]: log the reason, then run the call again; the caller passes
    [_request_with_retries] at [retries - 1] as [again]. *)
Definition _do_retry (again : World -> (Raised + PyVal) * World)
    (response : option Response) (saved_exception : option PyException)
    (w : World) : (Raised + PyVal) * World :=
  match saved_exception, response with
  | Some e, _ => again (emit (Retrying (inl e)) w)
  | None, Some r => again (emit (Retrying (inr (status r))) w)
  | None, None => (inl AttributeError, w)
  end.

Equations? _request_with_retries (env : Env) (c : Call) (retries : Z)
    (w : World) : (Raised + PyVal) * World by wf (Z.to_nat retries) lt :=
  _request_with_retries env c retries w :=
    match
      _make_request env c retries
        (_retry_sleep env retries (emit (Attempt retries) w))
    with
    | (inl exn, w2) => (inl exn, w2)
    | (inr (response, saved_exception), w2) =>
        let '(do_retry, w3) := unauthorized_check response w2 in
        match Sumbool.sumbool_of_bool
                (retry_condition retries do_retry response) with
        | left Hretry =>
            _do_retry (fun w' => _request_with_retries env c (retries - 1) w')
              response saved_exception w3
        | right _ => resolve env response w3
        end
    end.
Proof.
  unfold retry_condition in Hretry.
  apply andb_true_iff in Hretry as [Hgt _]. lia.
Qed.

(** ** Heap operations used by [request] *)

Definition alloc (d : PyDict) (h : Heap) : loc * Heap :=
  let l := fresh (dom h) in (l, <[l := d]> h).

(** [deepcopy(obj)] of a dictionary: a new object with the same content. *)
Definition deepcopy (l : loc) (h : Heap) : loc * Heap := alloc (h !!! l) h.

(** [obj[key] = value] *)
Definition setitem (l : loc) (key : string) (value : PyVal) (h : Heap) : Heap :=
  <[l := <[key := value]> (h !!! l)]> h.

(** The order of [(key, value)] tuples.  The keys of one dictionary are
    distinct, so comparing two of its items is decided by the keys. *)
Definition item_le (a b : string * PyVal) : Prop := (a.1 ≤ b.1)%string.

#[global] Instance item_le_dec : RelDecision item_le.
Proof. intros a b. unfold item_le. apply _. Defined.

(** [sorted(d.items())] *)
Definition sorted_items (d : PyDict) : list (string * PyVal) :=
  merge_sort item_le (map_to_list d).

Definition DEFAULT_RETRIES : Z := 3.

(** Line 244, [params = deepcopy(params) or {}]: the copy, or a new empty
    dictionary when the copy is falsy ([None] or empty). *)
Definition copy_params (params_ : option loc) (h : Heap) : loc * Heap :=
  match params_ with
  | None => alloc ∅ h
  | Some l =>
      let '(l', h') := deepcopy l h in
      if (size (h' !!! l') =? 0)%nat then alloc ∅ h' else (l', h')
  end.

(** Lines 246-249: a [dict] body is copied, tagged and turned into its
    sorted items; any other body is passed on as it is. *)
Definition canonical_data (data_ : Body) (h : Heap) : Body * Heap :=
  match data_ with
  | BodyDict l =>
      let '(l', h') := deepcopy l h in
      let h'' := setitem l' "api_type" (PStr "json") h' in
      (BodyItems (sorted_items (h'' !!! l')), h'')
  | _ => (data_, h)
  end.

(** [request]: canonicalise the arguments and build the coroutine
    [_request_with_retries(...)] with the default [retries]; the result is
    that coroutine's arguments. *)
Definition request (env : Env) (method_ path : string) (data_ : Body)
    (files_ : option (list (string * string))) (json_ : option PyVal)
    (params_ : option loc) (w : World) : Call * World :=
  let '(params1, h1) := copy_params params_ (heap w) in
  let h2 := setitem params1 "raw_json" (PInt 1) h1 in
  let '(data1, h3) := canonical_data data_ h2 in
  ({| data := data1; files := files_; json := json_; method := method_;
      params := params1; url := urljoin env (oauth_url env) path |},
   with_heap h3 w).

(** A logical call: [request], then the coroutine it returns is awaited. *)
Definition execute (env : Env) (method_ path : string) (data_ : Body)
    (files_ : option (list (string * string))) (json_ : option PyVal)
    (params_ : option loc) (w : World) : (Raised + PyVal) * World :=
  let '(c, w1) := request env method_ path data_ files_ json_ params_ w in
  _request_with_retries env c DEFAULT_RETRIES w1.

End Session.

(** ** Vocabulary for statements about one attempt *)

Import Session.

(** The world in which an attempt issues its request: the entry marker and
    the back-off sleep are behind it. *)
Definition before_send (env : Env) (retries : Z) (w : World) : World :=
  _retry_sleep env retries (emit (Attempt retries) w).

(** The request an attempt puts on the wire, and the world once the header
    callback has run. *)
Definition outgoing (env : Env) (c : Call) (w : World) : Request * World :=
  let '(hs, w1) := _set_header_callback env w in
  ({| req_method := method c; req_url := url c; req_allow_redirects := false;
      req_data := snapshot (heap w) (data c); req_json := json c;
      req_params := heap w !!! params c; req_headers := hs |}, w1).

(** What the HTTP client answers to the attempt made with [retries]
    attempts remaining in world [w]. *)
Definition attempt_outcome (env : Env) (c : Call) (retries : Z) (w : World)
  : HttpOutcome :=
  let '(req, w1) := outgoing env c (before_send env retries w) in
  http_request env (tally is_sent (trace w1)) req.

(** The world right after the attempt's request has been sent. *)
Definition after_send (env : Env) (c : Call) (retries : Z) (w : World) : World :=
  let '(req, w1) := outgoing env c (before_send env retries w) in
  emit (Sent req) w1.

(** The events a call appended to the trace. *)
Definition emitted (w w' : World) : list Event :=
  drop (length (trace w)) (trace w').

(** An attempt was followed by a retry: the call logged a retry warning. *)
Definition retried (env : Env) (c : Call) (retries : Z) (w : World) : bool :=
  existsb is_retrying
    (emitted w (_request_with_retries env c retries w).2).

(** What can be said of the answer to an attempt.  [forced_retry]: the 401
    check set [do_retry]. *)
Definition forced_retry (w : World) (o : HttpOutcome) : Prop :=
  exists r, o = Respond r /\ status r = codes.unauthorized /\
            has_refresh w = true.

Definition transport_failure (o : HttpOutcome) : Prop :=
  exists e, o = HttpRaise e.

Definition retryable_failure (o : HttpOutcome) : Prop :=
  exists e, o = HttpRaise e /\ isinstance e RETRY_EXCEPTIONS = true.

Definition retryable_status (o : HttpOutcome) : Prop :=
  exists r, o = Respond r /\ status r ∈ RETRY_STATUSES.

(** The retry rule in the words of the specification: retry iff more than
    one attempt remains and (forced retry on 401, or a transport failure
    occurred, or the status is a retryable one). *)
Definition retry_rule_as_stated (env : Env) (c : Call) (retries : Z)
    (w : World) : Prop :=
  let o := attempt_outcome env c retries w in
  retried env c retries w = true <->
  1 < retries /\ (forced_retry w o \/ transport_failure o \/ retryable_status o).

(** Whether a class is defined in the package [requests]. *)
Definition defined_in_requests (cls : string) : bool :=
  String.prefix "requests." cls.



(** The HTTP client's n-th answer is [o], whatever the request. *)
Definition answers (env : Env) (n : nat) (o : HttpOutcome) : Prop :=
  forall req, http_request env n req = o.

(** The events of the back-off sleep and of the header callback. *)
Definition backoff_events (env : Env) (retries : Z) (w : World) : list Event :=
  if retries <? 3
  then [Slept (sleep_seconds retries
                 (random_random env (tally is_slept (trace w))))]
  else [].

(** A value that [random.random()] can return: a binary64 number in
    [0, 1). *)
Definition unit_draw (u : Q) : Prop :=
  binary64.is_float u = true /\ (0 <= u < 1)%Q.


Definition header_events (env : Env) (w : World) : list Event :=
  if negb (Authorizer.is_valid w) && has_refresh w
  then [Refreshed (token_grant env (tally is_refreshed (trace w)))]
  else [].

(** The requests that were sent, in order. *)
Definition sent_requests (evs : list Event) : list Request :=
  omap (fun e => match e with Sent req => Some req | _ => None end) evs.

(** What the caller's [params] argument holds: the dictionary it refers to,
    or nothing. *)
Definition caller_params (params_ : option loc) (h : Heap) : PyDict :=
  match params_ with
  | Some l => h !!! l
  | None => ∅
  end.

(** The counters of the attempts of a call, in order. *)
Definition attempt_counters (evs : list Event) : list Z :=
  omap (fun e => match e with Attempt r => Some r | _ => None end) evs.

(** [n; n - 1; ...], [k] entries. *)
Definition countdown (n : Z) (k : nat) : list Z :=
  (fun i => n - Z.of_nat i) <$> seq 0 k.

(** What is counted in a stretch of trace: the attempt counters, the
    requests sent and the retry warnings. *)
Definition census (evs : list Event) : list Z * nat * nat :=
  (attempt_counters evs, tally is_sent evs, tally is_retrying evs).

(** The status table as the specification prints it (status, error kind). *)
Definition error_kind_table (s : Z) : option ErrorKind :=
  if s =? 302 then Some Redirect
  else if s =? 400 then Some BadRequest
  else if (s =? 401) || (s =? 403) then Some AuthError
  else if s =? 404 then Some NotFound
  else if s =? 409 then Some Conflict
  else if s =? 413 then Some TooLarge
  else if s =? 415 then Some SpecialError
  else if s =? 451 then Some UnavailableForLegalReasons
  else if (s =? 500) || (s =? 502) || (s =? 503) || (s =? 504) ||
          (s =? 520) || (s =? 522) then Some ServerError
  else None.

(** The error kind a table entry stands for. *)
Definition handler_kind (h : StatusHandler) : ErrorKind :=
  match h with
  | ExceptionClass kind => kind
  | authorization_error_class => AuthError
  end.

(** ** Concrete scenarios *)

Module Scenario.

Definition reply (s : Z) (content : string) : Response :=
  {| status := s;
     headers := [("content-type", "application/json")]%string;
     body := content |}.

Definition empty_reply (s : Z) : Response :=
  {| status := s; headers := [("content-length", "0")]%string; body := EmptyString |}.

(** A [requests.exceptions.ConnectionError]: the class [RETRY_EXCEPTIONS]
    names. *)
Definition connection_error : PyException :=
  {| exc_mro := ["requests.exceptions.ConnectionError";
                 "requests.exceptions.RequestException";
                 "builtins.OSError"; "builtins.Exception";
                 "builtins.BaseException"; "builtins.object"]%string;
     exc_repr := "ConnectionError()" |}.

(** What the aiohttp client raises: [aiohttp.InvalidURL] for a malformed
    URL, [aiohttp.ClientConnectorError] when the connection cannot be
    opened. *)
Definition invalid_url : PyException :=
  {| exc_mro := ["aiohttp.client_exceptions.InvalidURL";
                 "aiohttp.client_exceptions.ClientError";
                 "builtins.ValueError"; "builtins.Exception";
                 "builtins.BaseException"; "builtins.object"]%string;
     exc_repr := "InvalidURL()" |}.

Definition client_connector_error : PyException :=
  {| exc_mro := ["aiohttp.client_exceptions.ClientConnectorError";
                 "aiohttp.client_exceptions.ClientOSError";
                 "aiohttp.client_exceptions.ClientConnectionError";
                 "aiohttp.client_exceptions.ClientError";
                 "builtins.OSError"; "builtins.Exception";
                 "builtins.BaseException"; "builtins.object"]%string;
     exc_repr := "ClientConnectorError()" |}.

(** A decoder that knows two documents. *)
Definition decoder (s : string) : option PyVal :=
  if String.eqb s "{}" then Some (PDict [])
  else if String.eqb s "[]" then Some (PList [])
  else None.

(** The HTTP client answers from a script. *)
Definition scripted (answers : list HttpOutcome) : Env :=
  {| http_request := fun n _ => nth n answers (Respond (reply 200 "{}"));
     random_random := fun _ => (1 # 4)%Q;
     json_loads := decoder;
     token_grant := fun _ => "fresh"%string;
     token_lifetime := fun _ => 100%nat;
     oauth_url := "https://oauth.reddit.com";
     urljoin := fun base path => (base +:+ path)%string |}.



Definition start (refresh : bool) : World :=
  {| heap := {[ 1%positive := {[ "limit"%string := PInt 5 ]} ]};
     access_token := Some "stale"%string;
     expires_at := 100;
     has_refresh := refresh;
     trace := [] |}.

Definition get : Call :=
  {| data := BodyNone; files := None; json := None; method := "GET";
     params := 1%positive; url := "https://oauth.reddit.com/api/v1/me" |}.

End Scenario.

(** ** Vocabulary for whole calls *)

(** The HTTP client fails every time, with a cause that may be retried. *)
Definition always_raises (env : Env) : Prop :=
  forall n req, exists e,
    http_request env n req = HttpRaise e /\
    isinstance e RETRY_EXCEPTIONS = true.

(** Every answer has a retryable status. *)
Definition always_retry_status (env : Env) : Prop :=
  forall n req, exists r,
    http_request env n req = Respond r /\ status r ∈ RETRY_STATUSES.

(** Every answer is a 401. *)
Definition always_unauthorized (env : Env) : Prop :=
  forall n req, exists r,
    http_request env n req = Respond r /\ status r = codes.unauthorized.

(** The cached token stays valid for the next [k] transport calls. *)
Definition token_outlasts (w : World) (k : nat) : Prop :=
  is_Some (access_token w) /\ (Authorizer.now w + k <= expires_at w)%nat.

(** No answer is a 401. *)
Definition never_unauthorized (env : Env) : Prop :=
  forall n req r,
    http_request env n req = Respond r -> status r <> codes.unauthorized.

(** The time slept in a stretch of trace. *)
Fixpoint total_sleep (evs : list Event) : Q :=
  match evs with
  | [] => 0%Q
  | Slept q :: evs' => (q + total_sleep evs')%Q
  | _ :: evs' => total_sleep evs'
  end.

(** The answer of the HTTP client to the last request of a trace. *)
Definition last_answer (env : Env) (t : list Event) : option HttpOutcome :=
  match last (sent_requests t) with
  | Some req => Some (http_request env (tally is_sent t - 1) req)
  | None => None
  end.

(** The same call with other [files]. *)
Definition with_files (f : option (list (string * string))) (c : Call) : Call :=
  {| data := data c; files := f; json := json c; method := method c;
     params := params c; url := url c |}.

(** Environments for concrete runs. *)
Module Cases.

Definition steady (o : HttpOutcome) : Env :=
  {| http_request := fun _ _ => o;
     random_random := fun _ => (3 # 4)%Q;
     json_loads := Scenario.decoder;
     token_grant := fun _ => "renewed"%string;
     token_lifetime := fun _ => 0%nat;
     oauth_url := "https://oauth.reddit.com";
     urljoin := fun base path => (base +:+ path)%string |}.

Definition no_token (refresh : bool) : World :=
  {| heap := {[ 1%positive := ∅ ]};
     access_token := None;
     expires_at := 0;
     has_refresh := refresh;
     trace := [] |}.

End Cases.

(** The outcome [x] of a call is what lines 193-205, or the re-raise of
    [_make_request], make of the answer [o]. *)
Definition accounts_for (env : Env) (o : HttpOutcome) (x : Raised + PyVal)
  : Prop :=
  match x, o with
  | inl (ResponseException kind r'), Respond r =>
      r' = r /\
      (STATUS_EXCEPTIONS !! status r = Some (ExceptionClass kind) \/
       (STATUS_EXCEPTIONS !! status r = Some authorization_error_class /\
        kind = AuthError) \/
       (kind = BadJSON /\ status r ∈ SUCCESS_STATUSES /\
        json_loads env (body r) = None))
  | inl (RequestException e' _), HttpRaise e => e' = e
  | inl (AssertionError s), Respond r =>
      status r = s /\ STATUS_EXCEPTIONS !! s = None /\
      s <> codes.no_content /\ s ∉ SUCCESS_STATUSES
  | inr v, Respond r =>
      STATUS_EXCEPTIONS !! status r = None /\
      ((status r = codes.no_content /\ v = PNone) \/
       (status r ∈ SUCCESS_STATUSES /\
        (v = PStr EmptyString \/ json_loads env (body r) = Some v)))
  | _, _ => False
  end.

(** * Properties *)

Section Attempts.

Variable env : Env.
Variable c : Call.

Lemma make_request_spec (retries : Z) (w : World) :
  _make_request env c retries w =
  let '(req, w1) := outgoing env c w in
  match http_request env (tally is_sent (trace w1)) req with
  | Respond r => (inr (Some r, None), emit (Sent req) w1)
  | HttpRaise e =>
      if (retries <=? 1) || negb (isinstance e RETRY_EXCEPTIONS)
      then (inl (RequestException e req), emit (Sent req) w1)
      else (inr (None, Some e), emit (Sent req) w1)
  end.
Proof.
  unfold _make_request, outgoing, RateLimiter.call, Requestor.request.
  destruct (_set_header_callback env w) as [hs w1]. cbn.
  destruct (http_request env (tally is_sent (trace w1)) _); reflexivity.
Qed.

(** One attempt, read off the answer of the HTTP client. *)
Lemma attempt_spec (retries : Z) (w : World) :
  _request_with_retries env c retries w =
  let ws := after_send env c retries w in
  match attempt_outcome env c retries w with
  | HttpRaise e =>
      if (1 <? retries) && isinstance e RETRY_EXCEPTIONS
      then _request_with_retries env c (retries - 1)
             (emit (Retrying (inl e)) ws)
      else (inl (RequestException e (outgoing env c (before_send env retries w)).1), ws)
  | Respond r =>
      if status r =? codes.unauthorized then
        let wc := Authorizer._clear_access_token ws in
        if has_refresh ws && (1 <? retries)
        then _request_with_retries env c (retries - 1)
               (emit (Retrying (inr (status r))) wc)
        else resolve env (Some r) wc
      else if (1 <? retries) && bool_decide (status r ∈ RETRY_STATUSES)
      then _request_with_retries env c (retries - 1)
             (emit (Retrying (inr (status r))) ws)
      else resolve env (Some r) ws
  end.
Proof.
  rewrite _request_with_retries_equation_1.
  fold (before_send env retries w). rewrite make_request_spec.
  unfold attempt_outcome, after_send.
  destruct (outgoing env c (before_send env retries w)) as [req w1].
  cbv beta iota zeta. change (fst (req, w1)) with req.
  destruct (http_request env (tally is_sent (trace w1)) req) as [r|e].
  - unfold unauthorized_check, retry_condition.
    destruct (status r =? codes.unauthorized) eqn:H401.
    + apply Z.eqb_eq in H401.
      assert (bool_decide (status r ∈ RETRY_STATUSES) = false) as ->.
      { rewrite H401. reflexivity. }
      rewrite orb_false_r.
      rewrite (andb_comm (has_refresh _)), <- Z.gtb_ltb.
      destruct (sumbool_of_bool _) as [E|E]; rewrite E; reflexivity.
    + rewrite orb_false_l, Z.gtb_ltb.
      destruct (sumbool_of_bool _) as [E|E]; rewrite E; reflexivity.
  - replace (retries <=? 1) with (negb (1 <? retries))
      by (rewrite Z.ltb_antisym, negb_involutive; reflexivity).
    rewrite <- negb_andb.
    destruct ((1 <? retries) && isinstance e RETRY_EXCEPTIONS) eqn:E;
      cbv beta iota zeta delta [negb].
    + unfold unauthorized_check, retry_condition. rewrite Z.gtb_ltb.
      apply andb_true_iff in E as [E1 E2]. rewrite E1.
      destruct (sumbool_of_bool _) as [E|E]; [reflexivity|discriminate].
    + reflexivity.
Qed.

(** Induction along the chain of attempts. *)
Lemma attempts_ind (P : Z -> World -> (Raised + PyVal) * World -> Prop) :
  (forall retries w,
     (forall w', 1 < retries ->
        P (retries - 1) w' (_request_with_retries env c (retries - 1) w')) ->
     P retries w (_request_with_retries env c retries w)) ->
  forall retries w, P retries w (_request_with_retries env c retries w).
Proof.
  intros step retries.
  remember (Z.to_nat retries) as n eqn:Hn.
  revert retries Hn.
  induction n as [n IH] using lt_wf_ind. intros retries Hn w.
  apply step. intros w' Hgt.
  apply (IH (Z.to_nat (retries - 1))); [lia | reflexivity].
Qed.

End Attempts.

(** ** How the world changes *)

(** [w'] is a later stage of [w]: same heap, same refresh capability, and a
    trace that continues the one of [w]. *)
Definition later (w w' : World) : Prop :=
  heap w' = heap w /\ has_refresh w' = has_refresh w /\
  exists evs, trace w' = trace w ++ evs.

Lemma later_refl w : later w w.
Proof. split; [|split]; [done..|]. exists []. by rewrite app_nil_r. Qed.

Lemma later_trans w1 w2 w3 : later w1 w2 -> later w2 w3 -> later w1 w3.
Proof.
  intros (Hh & Hr & evs & Ht) (Hh' & Hr' & evs' & Ht').
  split; [|split]; [congruence..|].
  exists (evs ++ evs'). by rewrite Ht', Ht, app_assoc.
Qed.

Lemma later_emit e w : later w (emit e w).
Proof. split; [|split]; [done..|]. by exists [e]. Qed.

Lemma later_with_token t x w : later w (with_token t x w).
Proof. split; [|split]; [done..|]. exists []. by rewrite app_nil_r. Qed.

Lemma emitted_app w w' evs : trace w' = trace w ++ evs -> emitted w w' = evs.
Proof. intros H. unfold emitted. by rewrite H, drop_app_length. Qed.

Lemma later_emitted w w' : later w w' -> trace w' = trace w ++ emitted w w'.
Proof. intros (_ & _ & evs & Ht). by rewrite (emitted_app _ _ _ Ht). Qed.

(** Bring a trace built from appends into one shape. *)
Ltac flatten_trace :=
  repeat (progress (rewrite <- ?app_assoc; cbn [app])).

Lemma tally_app p t1 t2 : tally p (t1 ++ t2) = (tally p t1 + tally p t2)%nat.
Proof. unfold tally. by rewrite List.filter_app, length_app. Qed.

(** The back-off sleep appends at most one [Slept] event. *)
Lemma retry_sleep_trace env retries w :
  trace (_retry_sleep env retries w) =
  trace w ++ backoff_events env retries w.
Proof.
  unfold backoff_events.
  unfold _retry_sleep. destruct (retries <? 3); [done|]. by rewrite app_nil_r.
Qed.

Lemma retry_sleep_later env retries w : later w (_retry_sleep env retries w).
Proof.
  unfold _retry_sleep. destruct (retries <? 3);
    [apply later_emit | apply later_refl].
Qed.

Lemma before_send_later env retries w : later w (before_send env retries w).
Proof.
  eapply later_trans; [apply (later_emit (Attempt retries))|].
  apply retry_sleep_later.
Qed.

Create HintDb world discriminated.
#[local] Hint Resolve later_refl later_emit later_with_token : world.

Lemma refresh_later env w : later w (Authorizer.refresh env w).
Proof. unfold Authorizer.refresh. eauto using later_trans with world. Qed.

Lemma clear_later w : later w (Authorizer._clear_access_token w).
Proof.
  unfold Authorizer._clear_access_token. eauto using later_trans with world.
Qed.

#[local] Hint Resolve refresh_later clear_later : world.

Lemma set_header_later env w : later w (_set_header_callback env w).2.
Proof.
  unfold _set_header_callback. cbn.
  destruct (negb _ && _); [apply refresh_later | apply later_refl].
Qed.

Lemma outgoing_later env c w : later w (outgoing env c w).2.
Proof.
  unfold outgoing. pose proof (set_header_later env w) as H.
  destruct (_set_header_callback env w) as [hs w1]. exact H.
Qed.

Lemma after_send_later env c retries w : later w (after_send env c retries w).
Proof.
  unfold after_send.
  pose proof (outgoing_later env c (before_send env retries w)) as H.
  destruct (outgoing env c (before_send env retries w)) as [req w1].
  eapply later_trans; [apply before_send_later|].
  eapply later_trans; [exact H | apply later_emit].
Qed.

Lemma resolve_world env response w : (resolve env response w).2 = w.
Proof.
  unfold resolve. destruct response as [r|]; [|done].
  destruct (STATUS_EXCEPTIONS !! status r); [done|].
  repeat case_match; done.
Qed.

(** A whole call only appends to the trace; heap and capability stay. *)
Lemma request_with_retries_later env c retries w :
  later w (_request_with_retries env c retries w).2.
Proof.
  apply (attempts_ind env c (fun _ w res => later w res.2)).
  clear retries w. intros retries w IH.
  rewrite attempt_spec. cbv zeta.
  pose proof (after_send_later env c retries w) as Hs.
  set (ws := after_send env c retries w) in *.
  assert (Hrec : forall e w1, later w w1 -> (1 <? retries) = true ->
            later w (_request_with_retries env c (retries - 1) (emit e w1)).2).
  { intros e w1 Hw1 Hgt%Z.ltb_lt.
    eapply later_trans; [exact Hw1|].
    eapply later_trans; [apply (later_emit e) | by apply IH]. }
  destruct (attempt_outcome env c retries w) as [r|e].
  - destruct (status r =? codes.unauthorized).
    + destruct (has_refresh ws && (1 <? retries)) eqn:E.
      * apply andb_true_iff in E as [_ E]. apply Hrec; [|done].
        eapply later_trans; [exact Hs | apply clear_later].
      * rewrite resolve_world.
        eapply later_trans; [exact Hs | apply clear_later].
    + destruct ((1 <? retries) && _) eqn:E.
      * apply andb_true_iff in E as [E _]. by apply Hrec.
      * by rewrite resolve_world.
  - destruct ((1 <? retries) && _) eqn:E.
    + apply andb_true_iff in E as [E _]. by apply Hrec.
    + done.
Qed.

(** ** The response is there whenever it is read *)

Lemma resolve_present env r w : (resolve env (Some r) w).1 <> inl AttributeError.
Proof.
  unfold resolve.
  destruct (STATUS_EXCEPTIONS !! status r) as [[k|]|]; [done..|].
  repeat case_match; done.
Qed.

Lemma make_request_shape env c retries w response saved w' :
  _make_request env c retries w = (inr (response, saved), w') ->
  (exists r, response = Some r /\ saved = None) \/
  (exists e, response = None /\ saved = Some e /\ 1 < retries /\
             isinstance e RETRY_EXCEPTIONS = true).
Proof.
  rewrite make_request_spec.
  destruct (outgoing env c w) as [req w1].
  destruct (http_request env _ req) as [r|e].
  - intros [= <- <- <-]. left. by exists r.
  - destruct ((retries <=? 1) || negb _) eqn:E; [done|].
    apply orb_false_iff in E as [E1 E2].
    intros [= <- <- <-]. right. exists e.
    repeat split; [lia | by apply negb_false_iff].
Qed.

(** C10: terminal classification always has a response to read.  A transport
    exception is turned into an absent response only while more than one
    attempt remains; an absent response then always meets the retry
    condition; so whenever the retry condition fails the response is present,
    and no call ever ends in the [AttributeError] that reading the status of
    an absent response would raise. *)
Theorem C10_terminal_response_present (env : Env) (c : Call) :
  (forall retries w saved w',
     _make_request env c retries w = (inr (None, saved), w') ->
     1 < retries /\ exists e, saved = Some e) /\
  (forall retries do_retry,
     1 < retries -> retry_condition retries do_retry None = true) /\
  (forall retries w response saved w2,
     _make_request env c retries w = (inr (response, saved), w2) ->
     retry_condition retries (unauthorized_check response w2).1 response = false ->
     exists r, response = Some r) /\
  (forall retries w,
     (_request_with_retries env c retries w).1 <> inl AttributeError).
Proof.
  split; [|split; [|split]].
  - intros retries w saved w' H.
    apply make_request_shape in H as [(r & [=] & _)|(e & _ & -> & Hgt & _)].
    split; [done | by exists e].
  - intros retries do_retry Hgt. unfold retry_condition.
    rewrite orb_true_r, andb_true_r. by apply Z.gtb_lt.
  - intros retries w response saved w2 H Hno.
    apply make_request_shape in H as [(r & -> & _)|(e & -> & _ & Hgt & _)].
    + by exists r.
    + unfold retry_condition in Hno.
      rewrite orb_true_r, andb_true_r in Hno.
      rewrite Z.gtb_ltb in Hno. apply Z.ltb_ge in Hno. lia.
  - apply (attempts_ind env c (fun _ _ res => res.1 <> inl AttributeError)).
    intros retries w IH. rewrite attempt_spec. cbv zeta.
    destruct (attempt_outcome env c retries w) as [r|e].
    + destruct (status r =? codes.unauthorized).
      * destruct (has_refresh _ && (1 <? retries)) eqn:E.
        -- apply andb_true_iff in E as [_ E%Z.ltb_lt]. by apply IH.
        -- apply resolve_present.
      * destruct ((1 <? retries) && _) eqn:E.
        -- apply andb_true_iff in E as [E%Z.ltb_lt _]. by apply IH.
        -- apply resolve_present.
    + destruct ((1 <? retries) && _) eqn:E.
      * apply andb_true_iff in E as [E%Z.ltb_lt _]. by apply IH.
      * done.
Qed.

(** ** The status table *)

Lemma status_exceptions_lookup (s : Z) :
  handler_kind <$> (STATUS_EXCEPTIONS !! s) = error_kind_table s.
Proof.
  unfold error_kind_table, STATUS_EXCEPTIONS.
  repeat match goal with
         | |- context [?a =? ?b] =>
             destruct (Z.eqb_spec a b) as [->|?]; [reflexivity|]
         end.
  cbn [list_to_map foldr uncurry fst snd orb].
  unfold codes.bad_gateway, codes.bad_request, codes.conflict, codes.found,
    codes.forbidden, codes.gateway_timeout, codes.internal_server_error,
    codes.media_type, codes.not_found, codes.request_entity_too_large,
    codes.service_unavailable, codes.unauthorized,
    codes.unavailable_for_legal_reasons.
  rewrite !lookup_insert_ne by congruence. by rewrite lookup_empty.
Qed.

Lemma resolve_table_error env r w kind :
  error_kind_table (status r) = Some kind ->
  resolve env (Some r) w = (inl (ResponseException kind r), w).
Proof.
  intros Hk. rewrite <- status_exceptions_lookup in Hk.
  unfold resolve. destruct (STATUS_EXCEPTIONS !! status r) as [h|]; [|done].
  injection Hk as <-. by destruct h.
Qed.

(** C3: the table [STATUS_EXCEPTIONS] is the status table of the
    specification, entry for entry and with no further entries; at terminal
    resolution a status of the table raises the error of the mapped kind,
    carrying the raw response; and the success statuses are exactly 200 and
    201. *)
Theorem C3_status_table (env : Env) :
  (forall s, handler_kind <$> (STATUS_EXCEPTIONS !! s) = error_kind_table s) /\
  (forall r w kind,
     error_kind_table (status r) = Some kind ->
     resolve env (Some r) w = (inl (ResponseException kind r), w)) /\
  (forall r w kind r',
     (resolve env (Some r) w).1 = inl (ResponseException kind r') ->
     r' = r /\ (error_kind_table (status r) = Some kind \/ kind = BadJSON)) /\
  (forall s, s ∈ SUCCESS_STATUSES <-> s = 200 \/ s = 201).
Proof.
  split; [|split; [|split]].
  - apply status_exceptions_lookup.
  - intros r w kind. apply resolve_table_error.
  - intros r w kind r' H. pose proof (status_exceptions_lookup (status r)) as Hk.
    unfold resolve in H.
    destruct (STATUS_EXCEPTIONS !! status r) as [h|].
    + destruct h; cbn in H; inversion H; subst; split; auto.
    + destruct (status r =? codes.no_content); [discriminate|].
      destruct (bool_decide (status r ∈ SUCCESS_STATUSES)); [|discriminate].
      destruct (bool_decide _); [discriminate|].
      destruct (json_loads env (body r)); [discriminate|].
      cbn in H. inversion H; subst; auto.
  - intros s. unfold SUCCESS_STATUSES, codes.created, codes.ok.
    rewrite elem_of_union, !elem_of_singleton. tauto.
Qed.

(** ** Terminal resolution *)

Lemma table_none_lookup (s : Z) :
  error_kind_table s = None -> STATUS_EXCEPTIONS !! s = None.
Proof.
  rewrite <- status_exceptions_lookup.
  by destruct (STATUS_EXCEPTIONS !! s).
Qed.

Lemma resolve_no_content env r w :
  status r = 204 -> resolve env (Some r) w = (inr PNone, w).
Proof.
  intros H. unfold resolve. rewrite table_none_lookup by (by rewrite H).
  by rewrite H.
Qed.

Lemma resolve_success env r w :
  status r = 200 \/ status r = 201 ->
  resolve env (Some r) w =
  if bool_decide (headers_get "content-length" (headers r) = Some "0"%string)
  then (inr (PStr EmptyString), w)
  else match json_loads env (body r) with
       | Some v => (inr v, w)
       | None => (inl (ResponseException BadJSON r), w)
       end.
Proof.
  intros H. unfold resolve.
  rewrite table_none_lookup by (by destruct H as [-> | ->]).
  by destruct H as [-> | ->].
Qed.

(** An attempt that answered with [r] and is not retried ends the call with
    what [resolve] makes of [r]. *)
Lemma not_retried_resolves env c retries w r :
  attempt_outcome env c retries w = Respond r ->
  let chk := unauthorized_check (Some r) (after_send env c retries w) in
  retry_condition retries chk.1 (Some r) = false ->
  _request_with_retries env c retries w = resolve env (Some r) chk.2.
Proof.
  intros Hout chk Hno. rewrite attempt_spec, Hout. cbv zeta.
  subst chk. unfold unauthorized_check, retry_condition in *.
  rewrite Z.gtb_ltb in Hno.
  destruct (status r =? codes.unauthorized) eqn:H401; cbn [fst snd] in *.
  - apply Z.eqb_eq in H401.
    assert (bool_decide (status r ∈ RETRY_STATUSES) = false) as E
      by (by rewrite H401).
    rewrite E, orb_false_r, andb_comm in Hno. by rewrite Hno.
  - rewrite orb_false_l in Hno. by rewrite Hno.
Qed.

(** C4: an attempt that is not retried resolves by status: a status of the
    error table raises the mapped error kind with the raw response; 204
    returns [None], the no-content marker; 200 or 201 returns the empty
    string when content-length is exactly "0", and otherwise the decoded JSON
    body, or raises BadJSON with the raw response when decoding fails. *)
Theorem C4_terminal_resolution (env : Env) (c : Call) (retries : Z)
    (w : World) (r : Response) :
  attempt_outcome env c retries w = Respond r ->
  let chk := unauthorized_check (Some r) (after_send env c retries w) in
  retry_condition retries chk.1 (Some r) = false ->
  let res := _request_with_retries env c retries w in
  (forall kind, error_kind_table (status r) = Some kind ->
     res = (inl (ResponseException kind r), chk.2)) /\
  (status r = 204 -> res = (inr PNone, chk.2)) /\
  (status r = 200 \/ status r = 201 ->
   headers_get "content-length" (headers r) = Some "0"%string ->
   res = (inr (PStr EmptyString), chk.2)) /\
  (status r = 200 \/ status r = 201 ->
   headers_get "content-length" (headers r) <> Some "0"%string ->
   forall v, json_loads env (body r) = Some v -> res = (inr v, chk.2)) /\
  (status r = 200 \/ status r = 201 ->
   headers_get "content-length" (headers r) <> Some "0"%string ->
   json_loads env (body r) = None ->
   res = (inl (ResponseException BadJSON r), chk.2)).
Proof.
  intros Hout chk Hno res.
  assert (Hres : res = resolve env (Some r) chk.2)
    by (by apply not_retried_resolves).
  rewrite Hres. repeat split.
  - intros kind Hk. by apply resolve_table_error.
  - apply resolve_no_content.
  - intros Hs Hcl. rewrite resolve_success by done.
    by rewrite bool_decide_eq_true_2.
  - intros Hs Hcl v Hv. rewrite resolve_success by done.
    by rewrite bool_decide_eq_false_2, Hv.
  - intros Hs Hcl Hv. rewrite resolve_success by done.
    by rewrite bool_decide_eq_false_2, Hv.
Qed.

(** ** The events of one attempt *)

Lemma emitted_trans w1 w2 w3 :
  later w1 w2 -> later w2 w3 -> emitted w1 w3 = emitted w1 w2 ++ emitted w2 w3.
Proof.
  intros H12 H23. apply emitted_app.
  rewrite (later_emitted _ _ H23), (later_emitted _ _ H12). by rewrite app_assoc.
Qed.

Lemma emitted_emit e w : emitted w (emit e w) = [e].
Proof. by apply emitted_app. Qed.

Lemma emitted_clear w : emitted w (Authorizer._clear_access_token w) = [TokenCleared].
Proof. by apply emitted_app. Qed.

Lemma set_header_trace env w :
  trace (_set_header_callback env w).2 = trace w ++ header_events env w.
Proof.
  unfold _set_header_callback, header_events. cbn.
  destruct (negb _ && _); [done|]. by rewrite app_nil_r.
Qed.

Lemma after_send_trace env c retries w :
  trace (after_send env c retries w) =
  trace w ++
  Attempt retries :: backoff_events env retries (emit (Attempt retries) w) ++
  header_events env (before_send env retries w) ++
  [Sent (outgoing env c (before_send env retries w)).1].
Proof.
  unfold after_send, outgoing.
  pose proof (set_header_trace env (before_send env retries w)) as Hh.
  destruct (_set_header_callback env (before_send env retries w)) as [hs w1].
  cbn [fst snd emit trace] in *. rewrite Hh. unfold before_send at 1.
  rewrite retry_sleep_trace. cbn [emit trace].
  by rewrite <- !app_assoc.
Qed.

Lemma after_send_emitted env c retries w :
  emitted w (after_send env c retries w) =
  Attempt retries :: backoff_events env retries (emit (Attempt retries) w) ++
  header_events env (before_send env retries w) ++
  [Sent (outgoing env c (before_send env retries w)).1].
Proof. apply emitted_app, after_send_trace. Qed.

Lemma census_app evs1 evs2 :
  census (evs1 ++ evs2) =
  let '(a1, s1, r1) := census evs1 in
  let '(a2, s2, r2) := census evs2 in
  (a1 ++ a2, (s1 + s2)%nat, (r1 + r2)%nat).
Proof.
  unfold census, attempt_counters. by rewrite omap_app, !tally_app.
Qed.

Lemma census_after_send env c retries w :
  census (emitted w (after_send env c retries w)) = ([retries], 1%nat, 0%nat).
Proof.
  rewrite after_send_emitted. unfold backoff_events, header_events.
  destruct (retries <? 3); destruct (negb _ && _); reflexivity.
Qed.

Lemma countdown_S n k : countdown n (S k) = n :: countdown (n - 1) k.
Proof.
  unfold countdown. cbn [seq fmap list_fmap].
  replace (n - Z.of_nat 0) with n by lia. f_equal.
  rewrite <- seq_shift, <- list_fmap_compose. apply list_fmap_ext.
  intros _ i _. cbn. lia.
Qed.

(** The attempts of a call: their counters count down from the budget one
    by one, each attempt sends one request, and all but the last are followed
    by a retry. *)
Lemma attempts_census env c retries w :
  exists k : nat,
    (1 <= k)%nat /\ Z.of_nat k <= Z.max 1 retries /\
    census (emitted w (_request_with_retries env c retries w).2) =
    (countdown retries k, k, (k - 1)%nat).
Proof.
  apply (attempts_ind env c (fun retries w res =>
    exists k : nat, (1 <= k)%nat /\ Z.of_nat k <= Z.max 1 retries /\
      census (emitted w res.2) = (countdown retries k, k, (k - 1)%nat))).
  clear retries w. intros retries w IH.
  pose proof (after_send_later env c retries w) as Hs.
  pose proof (census_after_send env c retries w) as Hc.
  assert (Hstop : forall w', later (after_send env c retries w) w' ->
            census (emitted (after_send env c retries w) w') = ([], 0%nat, 0%nat) ->
            exists k : nat, (1 <= k)%nat /\ Z.of_nat k <= Z.max 1 retries /\
              census (emitted w w') = (countdown retries k, k, (k - 1)%nat)).
  { intros w' Hl Hc'. exists 1%nat. split; [lia|]. split; [lia|].
    rewrite (emitted_trans _ _ _ Hs Hl), census_app, Hc, Hc'.
    by rewrite countdown_S. }
  assert (Hgo : forall w' x, later (after_send env c retries w) w' ->
            census (emitted (after_send env c retries w) w') = ([], 0%nat, 0%nat) ->
            1 < retries ->
            exists k : nat, (1 <= k)%nat /\ Z.of_nat k <= Z.max 1 retries /\
              census (emitted w
                (_request_with_retries env c (retries - 1)
                   (emit (Retrying x) w')).2) =
              (countdown retries k, k, (k - 1)%nat)).
  { intros w' x Hl Hc' Hgt.
    destruct (IH (emit (Retrying x) w') Hgt) as (k & Hk1 & Hk2 & Hk3).
    exists (S k). split; [lia|]. split; [lia|].
    pose proof (request_with_retries_later env c (retries - 1)
                  (emit (Retrying x) w')) as Hr.
    rewrite (emitted_trans w (emit (Retrying x) w') _); [|
      eapply later_trans; [exact Hs|];
      eapply later_trans; [exact Hl | apply later_emit] | exact Hr].
    rewrite (emitted_trans w (after_send env c retries w) (emit (Retrying x) w'));
      [| exact Hs | eapply later_trans; [exact Hl | apply later_emit]].
    rewrite (emitted_trans _ w' (emit (Retrying x) w'));
      [| exact Hl | apply later_emit].
    rewrite emitted_emit, !census_app, Hc, Hc', Hk3.
    rewrite countdown_S. cbn. do 2 f_equal. lia. }
  rewrite attempt_spec. cbv zeta.
  destruct (attempt_outcome env c retries w) as [r|e].
  - destruct (status r =? codes.unauthorized).
    + destruct (has_refresh _ && (1 <? retries)) eqn:E.
      * apply andb_true_iff in E as [_ E%Z.ltb_lt].
        apply Hgo; [apply clear_later | by rewrite emitted_clear | done].
      * rewrite resolve_world.
        apply Hstop; [apply clear_later | by rewrite emitted_clear].
    + destruct ((1 <? retries) && _) eqn:E.
      * apply andb_true_iff in E as [E%Z.ltb_lt _].
        apply Hgo; [apply later_refl | | done].
        by rewrite (emitted_app _ _ []) by (by rewrite app_nil_r).
      * rewrite resolve_world.
        apply Hstop; [apply later_refl|].
        by rewrite (emitted_app _ _ []) by (by rewrite app_nil_r).
  - destruct ((1 <? retries) && _) eqn:E.
    + apply andb_true_iff in E as [E%Z.ltb_lt _].
      apply Hgo; [apply later_refl | | done].
      by rewrite (emitted_app _ _ []) by (by rewrite app_nil_r).
    + apply Hstop; [apply later_refl|].
      by rewrite (emitted_app _ _ []) by (by rewrite app_nil_r).
Qed.

Lemma countdown_lookup n k i r :
  countdown n k !! i = Some r -> r = n - Z.of_nat i /\ (i < k)%nat.
Proof.
  unfold countdown. rewrite list_lookup_fmap.
  destruct (seq 0 k !! i) as [j|] eqn:E; [|done].
  apply lookup_seq in E as [-> ?]. cbn. intros [= <-]. split; [done | lia].
Qed.

Lemma request_trace env method_ path data_ files_ json_ params_ w :
  trace (request env method_ path data_ files_ json_ params_ w).2 = trace w.
Proof.
  unfold request.
  destruct (copy_params params_ (heap w)) as [p1 h1].
  by destruct (canonical_data data_ _).
Qed.

(** C9: the counters of the attempts of a call with budget [n] are
    [n, n - 1, ...], each one less than the one before, one request is sent
    per attempt, and an attempt that is followed by a retry has a counter
    above 1.  For a budget [n >= 1], which is what [request] and [_do_retry]
    pass, no counter falls below 1 and at most [n] requests are sent; a
    counter that starts non-negative stays so.  The recursion is the
    well-founded one of [_request_with_retries], so every call returns.  A
    call through [request] has the default budget and sends at most 3. *)
Theorem C9_retry_counter (env : Env) (c : Call) (n : Z) (w : World) :
  let evs := emitted w (_request_with_retries env c n w).2 in
  (exists k : nat,
     (1 <= k)%nat /\ Z.of_nat k <= Z.max 1 n /\
     attempt_counters evs = countdown n k /\
     tally is_sent evs = k /\ tally is_retrying evs = (k - 1)%nat) /\
  Forall (fun r => 1 < r) (take (tally is_retrying evs) (attempt_counters evs)) /\
  (1 <= n ->
   Forall (fun r => 1 <= r) (attempt_counters evs) /\
   Z.of_nat (tally is_sent evs) <= n) /\
  (0 <= n -> Forall (fun r => 0 <= r) (attempt_counters evs)) /\
  (forall method_ path data_ files_ json_ params_,
     (tally is_sent
        (emitted w (execute env method_ path data_ files_ json_ params_ w).2)
      <= 3)%nat).
Proof.
  intros evs.
  destruct (attempts_census env c n w) as (k & Hk1 & Hk2 & Hc).
  fold evs in Hc. unfold census in Hc. injection Hc as Ha Hs Hr.
  split; [|split; [|split; [|split]]].
  - exists k. auto.
  - rewrite Ha, Hr. apply Forall_lookup_2. intros i r Hi.
    apply lookup_take_Some in Hi as [Hi Hlt].
    apply countdown_lookup in Hi as [-> Hi]. lia.
  - intros Hn. split; [|lia].
    rewrite Ha. apply Forall_lookup_2. intros i r Hi.
    apply countdown_lookup in Hi as [-> Hi]. lia.
  - intros Hn. rewrite Ha. apply Forall_lookup_2. intros i r Hi.
    apply countdown_lookup in Hi as [-> Hi]. lia.
  - intros method_ path data_ files_ json_ params_. unfold execute.
    pose proof (request_trace env method_ path data_ files_ json_ params_ w) as Ht.
    destruct (request env method_ path data_ files_ json_ params_ w) as [c' w1].
    cbn [snd] in Ht.
    destruct (attempts_census env c' DEFAULT_RETRIES w1) as (k' & _ & Hk' & Hc').
    unfold census in Hc'. injection Hc' as _ Hs' _.
    unfold emitted in *. rewrite <- Ht, Hs'. unfold DEFAULT_RETRIES in Hk'. lia.
Qed.

(** ** Whether an attempt is followed by a retry *)

Lemma existsb_tally p evs : existsb p evs = negb (tally p evs =? 0)%nat.
Proof.
  unfold tally. induction evs as [|e evs IH]; [done|].
  cbn. destruct (p e); cbn; [done | exact IH].
Qed.

Lemma census_retrying evs a s r :
  census evs = (a, s, r) -> existsb is_retrying evs = negb (r =? 0)%nat.
Proof. unfold census. intros [= _ _ <-]. apply existsb_tally. Qed.

Lemma emitted_nil w : emitted w w = [].
Proof. apply emitted_app. by rewrite app_nil_r. Qed.

(** The census of a call whose first attempt is followed by a retry. *)
Lemma census_retry_step env c retries w x w' :
  later (after_send env c retries w) w' ->
  census (emitted (after_send env c retries w) w') = ([], 0%nat, 0%nat) ->
  let w2 := emit (Retrying x) w' in
  census (emitted w (_request_with_retries env c (retries - 1) w2).2) =
  let '(a, s, r) :=
    census (emitted w2 (_request_with_retries env c (retries - 1) w2).2) in
  (retries :: a, S s, S r).
Proof.
  intros Hl Hc' w2.
  pose proof (after_send_later env c retries w) as Hs.
  pose proof (census_after_send env c retries w) as Hc.
  pose proof (request_with_retries_later env c (retries - 1) w2) as Hr.
  assert (Hl2 : later w' w2) by apply later_emit.
  rewrite (emitted_trans w w2 _);
    [| eapply later_trans; [exact Hs | eapply later_trans; eauto] | exact Hr].
  rewrite (emitted_trans w (after_send env c retries w) w2);
    [| exact Hs | eapply later_trans; eauto].
  rewrite (emitted_trans _ w' w2); [| exact Hl | exact Hl2].
  subst w2. rewrite emitted_emit, !census_app, Hc, Hc'.
  by destruct (census _) as [[a s] r].
Qed.

(** The census of a call whose first attempt is the last. *)
Lemma census_stop env c retries w w' :
  later (after_send env c retries w) w' ->
  census (emitted (after_send env c retries w) w') = ([], 0%nat, 0%nat) ->
  census (emitted w w') = ([retries], 1%nat, 0%nat).
Proof.
  intros Hl Hc'.
  rewrite (emitted_trans _ _ _ (after_send_later env c retries w) Hl).
  by rewrite census_app, census_after_send, Hc'.
Qed.

(** An attempt is followed by a retry exactly in the three cases in which
    [attempt_spec] continues with another attempt. *)
Lemma retried_spec env c retries w :
  retried env c retries w =
  match attempt_outcome env c retries w with
  | HttpRaise e => (1 <? retries) && isinstance e RETRY_EXCEPTIONS
  | Respond r =>
      if status r =? codes.unauthorized
      then has_refresh w && (1 <? retries)
      else (1 <? retries) && bool_decide (status r ∈ RETRY_STATUSES)
  end.
Proof.
  unfold retried. rewrite attempt_spec. cbv zeta.
  pose proof (after_send_later env c retries w) as (_ & Hrf & _).
  set (ws := after_send env c retries w) in *.
  assert (Hgo : forall x w', later ws w' ->
            census (emitted ws w') = ([], 0%nat, 0%nat) ->
            existsb is_retrying
              (emitted w (_request_with_retries env c (retries - 1)
                            (emit (Retrying x) w')).2) = true).
  { intros x w' Hl Hc.
    pose proof (census_retry_step env c retries w x w' Hl Hc) as H.
    cbv zeta in H. destruct (census (emitted (emit _ _) _)) as [[a s] r].
    by rewrite (census_retrying _ _ _ _ H). }
  assert (Hstop : forall w', later ws w' ->
            census (emitted ws w') = ([], 0%nat, 0%nat) ->
            existsb is_retrying (emitted w w') = false).
  { intros w' Hl Hc.
    by rewrite (census_retrying _ _ _ _ (census_stop env c retries w w' Hl Hc)). }
  destruct (attempt_outcome env c retries w) as [r|e].
  - destruct (status r =? codes.unauthorized).
    + rewrite <- Hrf. destruct (has_refresh ws && (1 <? retries)).
      * apply Hgo; [apply clear_later | by rewrite emitted_clear].
      * rewrite resolve_world.
        apply Hstop; [apply clear_later | by rewrite emitted_clear].
    + destruct ((1 <? retries) && _).
      * apply Hgo; [apply later_refl | by rewrite emitted_nil].
      * rewrite resolve_world.
        apply Hstop; [apply later_refl | by rewrite emitted_nil].
  - destruct ((1 <? retries) && _).
    + apply Hgo; [apply later_refl | by rewrite emitted_nil].
    + apply Hstop; [apply later_refl | by rewrite emitted_nil].
Qed.

Lemma retry_statuses_elem (s : Z) :
  s ∈ RETRY_STATUSES <->
  s = 500 \/ s = 502 \/ s = 503 \/ s = 504 \/ s = 520 \/ s = 522.
Proof.
  unfold RETRY_STATUSES, codes.bad_gateway, codes.gateway_timeout,
    codes.internal_server_error, codes.service_unavailable.
  rewrite !elem_of_union, !elem_of_singleton. tauto.
Qed.

Lemma unauthorized_not_retry_status : codes.unauthorized ∉ RETRY_STATUSES.
Proof. rewrite retry_statuses_elem. unfold codes.unauthorized. lia. Qed.

(** ** Scripted answers *)

Lemma tally_sent_backoff env retries w :
  tally is_sent (backoff_events env retries w) = 0%nat.
Proof. unfold backoff_events. by destruct (retries <? 3). Qed.

Lemma tally_sent_header env w : tally is_sent (header_events env w) = 0%nat.
Proof. unfold header_events. by destruct (negb _ && _). Qed.

Lemma outgoing_trace env c w :
  trace (outgoing env c w).2 = trace w ++ header_events env w.
Proof.
  unfold outgoing. pose proof (set_header_trace env w) as H.
  by destruct (_set_header_callback env w).
Qed.

Lemma before_send_trace env retries w :
  trace (before_send env retries w) =
  trace w ++ Attempt retries :: backoff_events env retries (emit (Attempt retries) w).
Proof.
  unfold before_send. rewrite retry_sleep_trace. cbn [emit trace].
  by rewrite <- app_assoc.
Qed.

Lemma attempt_outcome_at env c retries w o :
  answers env (tally is_sent (trace w)) o -> attempt_outcome env c retries w = o.
Proof.
  intros Ho. unfold attempt_outcome.
  pose proof (outgoing_trace env c (before_send env retries w)) as Ht.
  destruct (outgoing env c (before_send env retries w)) as [req w1].
  cbn [snd] in Ht. rewrite Ht, before_send_trace, !tally_app.
  cbn [tally List.filter is_sent length].
  fold (tally is_sent (backoff_events env retries (emit (Attempt retries) w))).
  rewrite tally_sent_backoff, tally_sent_header, !Nat.add_0_r. apply Ho.
Qed.

Lemma sent_after_send env c retries w :
  tally is_sent (trace (after_send env c retries w)) = S (tally is_sent (trace w)).
Proof.
  rewrite after_send_trace, tally_app.
  change (Attempt retries :: ?l) with ([Attempt retries] ++ l).
  rewrite !tally_app, tally_sent_backoff, tally_sent_header. cbn. lia.
Qed.

(** An attempt answered with a retryable status while attempts remain. *)
Lemma step_retry_status env c retries w r :
  answers env (tally is_sent (trace w)) (Respond r) ->
  status r ∈ RETRY_STATUSES -> 1 < retries ->
  let w2 := emit (Retrying (inr (status r))) (after_send env c retries w) in
  _request_with_retries env c retries w =
    _request_with_retries env c (retries - 1) w2 /\
  tally is_sent (trace w2) = S (tally is_sent (trace w)) /\
  census (emitted w (_request_with_retries env c retries w).2) =
    (let '(a, s, n) :=
       census (emitted w2 (_request_with_retries env c (retries - 1) w2).2) in
     (retries :: a, S s, S n)).
Proof.
  intros Ho Hs Hgt w2.
  assert (Hne : (status r =? codes.unauthorized) = false).
  { apply Z.eqb_neq. intros E. rewrite E in Hs.
    by apply unauthorized_not_retry_status. }
  assert (Heq : _request_with_retries env c retries w =
                _request_with_retries env c (retries - 1) w2).
  { rewrite attempt_spec, (attempt_outcome_at _ _ _ _ _ Ho). cbv zeta.
    rewrite Hne, bool_decide_eq_true_2 by done.
    by apply Z.ltb_lt in Hgt as ->. }
  split; [exact Heq|]. split.
  - subst w2. cbn [emit trace]. rewrite tally_app, sent_after_send. cbn. lia.
  - rewrite Heq. apply census_retry_step; [apply later_refl|].
    by rewrite emitted_nil.
Qed.

(** An attempt answered with a status other than 401 that is not retried. *)
Lemma step_resolve env c retries w r :
  answers env (tally is_sent (trace w)) (Respond r) ->
  status r <> codes.unauthorized ->
  retries <= 1 \/ status r ∉ RETRY_STATUSES ->
  _request_with_retries env c retries w =
    resolve env (Some r) (after_send env c retries w) /\
  census (emitted w (_request_with_retries env c retries w).2) =
    ([retries], 1%nat, 0%nat).
Proof.
  intros Ho Hne Hno.
  assert (Heq : _request_with_retries env c retries w =
                resolve env (Some r) (after_send env c retries w)).
  { rewrite attempt_spec, (attempt_outcome_at _ _ _ _ _ Ho). cbv zeta.
    apply Z.eqb_neq in Hne as ->.
    destruct Hno as [Hle|Hns].
    - by apply Z.ltb_ge in Hle as ->.
    - by rewrite bool_decide_eq_false_2, andb_false_r. }
  split; [exact Heq|]. rewrite Heq, resolve_world.
  apply (census_stop env c); [apply later_refl | by rewrite emitted_nil].
Qed.

(** [503, 503, then r3] with a budget of 3: two retries, then [r3] decides. *)
Lemma three_attempts env c w r1 r2 r3 :
  let n0 := tally is_sent (trace w) in
  answers env n0 (Respond r1) -> answers env (S n0) (Respond r2) ->
  answers env (S (S n0)) (Respond r3) ->
  status r1 = 503 -> status r2 = 503 -> status r3 <> codes.unauthorized ->
  exists w3,
    _request_with_retries env c 3 w = resolve env (Some r3) w3 /\
    census (emitted w (_request_with_retries env c 3 w).2) =
      ([3; 2; 1], 3%nat, 2%nat).
Proof.
  intros n0 H1 H2 H3 Hs1 Hs2 Hs3. subst n0.
  assert (Hin : forall r, status r = 503 -> status r ∈ RETRY_STATUSES).
  { intros r ->. apply retry_statuses_elem. lia. }
  destruct (step_retry_status env c 3 w r1 H1 (Hin _ Hs1) ltac:(lia))
    as (E1 & N1 & C1).
  set (w1 := emit _ (after_send env c 3 w)) in *.
  rewrite <- N1 in H2.
  destruct (step_retry_status env c (3 - 1) w1 r2 H2 (Hin _ Hs2) ltac:(lia))
    as (E2 & N2 & C2).
  set (w2 := emit _ (after_send env c (3 - 1) w1)) in *.
  rewrite <- N1, <- N2 in H3.
  destruct (step_resolve env c (3 - 1 - 1) w2 r3 H3 Hs3 ltac:(left; lia))
    as (E3 & C3).
  exists (after_send env c (3 - 1 - 1) w2). split.
  - by rewrite E1, E2, E3.
  - rewrite C1, C2, C3. reflexivity.
Qed.

(** ** C1: the retry rule *)

(** C1: an attempt is followed by a retry if and only if more
    than one attempt remains and the 401 check forced the retry, or the
    transport failed with a cause that is an instance of one of
    [RETRY_EXCEPTIONS], or the status is one of 500, 502, 503, 504, 520, 522.
    With the answers [503, 503, 200] and a budget of 3 the call makes two
    retries and returns the decoded body; with [503, 503, 503] it raises
    ServerError for the third response after three attempts and two
    retries. *)
Theorem C1_retry_rule (env : Env) (c : Call) (retries : Z) (w : World) :
  (let o := attempt_outcome env c retries w in
   retried env c retries w = true <->
   1 < retries /\
   (forced_retry w o \/ retryable_failure o \/ retryable_status o)) /\
  (forall s, s ∈ RETRY_STATUSES <->
     s = 500 \/ s = 502 \/ s = 503 \/ s = 504 \/ s = 520 \/ s = 522) /\
  (forall r1 r2 r3,
     let n0 := tally is_sent (trace w) in
     answers env n0 (Respond r1) -> answers env (S n0) (Respond r2) ->
     answers env (S (S n0)) (Respond r3) ->
     status r1 = 503 -> status r2 = 503 ->
     let res := _request_with_retries env c 3 w in
     (status r3 = 200 ->
      headers_get "content-length" (headers r3) <> Some "0"%string ->
      forall v, json_loads env (body r3) = Some v ->
      res.1 = inr v /\ census (emitted w res.2) = ([3; 2; 1], 3%nat, 2%nat)) /\
     (status r3 = 503 ->
      res.1 = inl (ResponseException ServerError r3) /\
      census (emitted w res.2) = ([3; 2; 1], 3%nat, 2%nat))).
Proof.
  split; [|split].
  - cbv zeta. rewrite retried_spec.
    unfold forced_retry, retryable_failure, retryable_status.
    destruct (attempt_outcome env c retries w) as [r|e].
    + destruct (status r =? codes.unauthorized) eqn:H401.
      * apply Z.eqb_eq in H401. rewrite andb_true_iff, Z.ltb_lt. split.
        -- intros [Hr Hgt]. split; [done|]. left. by exists r.
        -- intros [Hgt [(r' & [= <-] & _ & Hr)|[(e & [=] & _)|(r' & [= <-] & Hs)]]].
           ++ done.
           ++ rewrite H401 in Hs. by apply unauthorized_not_retry_status in Hs.
      * apply Z.eqb_neq in H401.
        rewrite andb_true_iff, Z.ltb_lt, bool_decide_eq_true. split.
        -- intros [Hgt Hs]. split; [done|]. right. right. by exists r.
        -- intros [Hgt [(r' & [= <-] & Hs & _)|[(e & [=] & _)|(r' & [= <-] & Hs)]]];
             done.
    + rewrite andb_true_iff, Z.ltb_lt. split.
      * intros [Hgt He]. split; [done|]. right. left. by exists e.
      * intros [Hgt [(r' & [=] & _)|[(e' & [= <-] & He)|(r' & [=] & _)]]]. done.
  - apply retry_statuses_elem.
  - intros r1 r2 r3 n0 H1 H2 H3 Hs1 Hs2 res. split.
    + intros Hs3 Hcl v Hv.
      destruct (three_attempts env c w r1 r2 r3 H1 H2 H3 Hs1 Hs2) as (w3 & E & C).
      { rewrite Hs3. unfold codes.unauthorized. lia. }
      subst res. split; [|exact C].
      rewrite E, resolve_success by auto.
      by rewrite bool_decide_eq_false_2, Hv.
    + intros Hs3.
      destruct (three_attempts env c w r1 r2 r3 H1 H2 H3 Hs1 Hs2) as (w3 & E & C).
      { rewrite Hs3. unfold codes.unauthorized. lia. }
      subst res. split; [|exact C].
      by rewrite E, (resolve_table_error env r3 w3 ServerError) by (by rewrite Hs3).
Qed.

(** The rule as the specification words it fails when the transport fails
    with a cause outside [RETRY_EXCEPTIONS]: three attempts remain and a
    transport failure occurred, yet the exception is re-raised and no retry
    follows. *)
Lemma C1_fatal_cause_not_retried :
  ~ retry_rule_as_stated
      (Scenario.scripted [HttpRaise Scenario.invalid_url])
      Scenario.get 3 (Scenario.start true).
Proof.
  unfold retry_rule_as_stated. cbv zeta. intros [_ H].
  assert (Hno : retried (Scenario.scripted [HttpRaise Scenario.invalid_url])
                  Scenario.get 3 (Scenario.start true) = false)
    by (vm_compute; reflexivity).
  rewrite H in Hno; [discriminate|].
  split; [lia|]. right. left. by exists Scenario.invalid_url.
Qed.

Lemma C1_retry_rule_witness :
  (_request_with_retries
     (Scenario.scripted [Respond (Scenario.reply 503 EmptyString);
                         Respond (Scenario.reply 503 EmptyString);
                         Respond (Scenario.reply 200 "{}")])
     Scenario.get 3 (Scenario.start true)).1 = inr (PDict []) /\
  census (emitted (Scenario.start true)
    (_request_with_retries
       (Scenario.scripted [Respond (Scenario.reply 503 EmptyString);
                           Respond (Scenario.reply 503 EmptyString);
                           Respond (Scenario.reply 200 "{}")])
       Scenario.get 3 (Scenario.start true)).2) = ([3; 2; 1], 3%nat, 2%nat).
Proof.
  refine (proj1 (proj2 (proj2 (C1_retry_rule _ Scenario.get 3 (Scenario.start true)))
            (Scenario.reply 503 EmptyString) (Scenario.reply 503 EmptyString)
            (Scenario.reply 200 "{}") _ _ _ _ _) _ _ (PDict []) _);
    try reflexivity; try (intros req; reflexivity).
  discriminate.
Defined.

(** ** C2: the 401 check *)

Lemma before_send_token env retries w :
  access_token (before_send env retries w) = access_token w.
Proof. unfold before_send, _retry_sleep. by destruct (retries <? 3). Qed.

Lemma before_send_sent env retries w :
  tally is_sent (trace (before_send env retries w)) = tally is_sent (trace w).
Proof.
  unfold before_send, _retry_sleep.
  destruct (retries <? 3); cbn [emit trace]; rewrite !tally_app; cbn; lia.
Qed.

Lemma before_send_expires env retries w :
  expires_at (before_send env retries w) = expires_at w.
Proof. unfold before_send, _retry_sleep. by destruct (retries <? 3). Qed.

(** The back-off sleep does not change the verdict of the validity check. *)
Lemma before_send_valid env retries w :
  Authorizer.is_valid (before_send env retries w) = Authorizer.is_valid w.
Proof.
  unfold Authorizer.is_valid, Authorizer.now.
  by rewrite before_send_token, before_send_sent, before_send_expires.
Qed.

Lemma is_valid_token w :
  Authorizer.is_valid w = true -> exists t, access_token w = Some t.
Proof. unfold Authorizer.is_valid. destruct (access_token w); [eauto | done]. Qed.

Lemma header_events_valid env w :
  Authorizer.is_valid w = true -> header_events env w = [].
Proof. intros H. unfold header_events. by rewrite H. Qed.

Lemma header_events_refresh env w :
  access_token w = None -> has_refresh w = true ->
  header_events env w = [Refreshed (token_grant env (tally is_refreshed (trace w)))].
Proof.
  intros H1 H2. unfold header_events, Authorizer.is_valid. by rewrite H1, H2.
Qed.

Lemma after_send_token_valid env c retries w t :
  access_token w = Some t -> Authorizer.is_valid w = true ->
  access_token (after_send env c retries w) = Some t /\
  expires_at (after_send env c retries w) = expires_at w.
Proof.
  intros H Hv. unfold after_send, outgoing, _set_header_callback.
  rewrite before_send_valid, Hv. cbn.
  by rewrite before_send_token, before_send_expires.
Qed.

(** What a 401 answer does to one attempt. *)
Lemma step_unauthorized env c retries w r :
  attempt_outcome env c retries w = Respond r ->
  status r = codes.unauthorized ->
  let wc := Authorizer._clear_access_token (after_send env c retries w) in
  (has_refresh w = true -> 1 < retries ->
   _request_with_retries env c retries w =
   _request_with_retries env c (retries - 1) (emit (Retrying (inr 401)) wc)) /\
  (has_refresh w = false \/ retries <= 1 ->
   _request_with_retries env c retries w =
     (inl (ResponseException AuthError r), wc) /\
   census (emitted w wc) = ([retries], 1%nat, 0%nat)).
Proof.
  intros Ho Hs wc.
  pose proof (after_send_later env c retries w) as Hl.
  destruct Hl as (_ & Hrf & _).
  split.
  - intros Hr Hgt. rewrite attempt_spec, Ho. cbv zeta.
    rewrite Hs, Z.eqb_refl, Hrf, Hr. by apply Z.ltb_lt in Hgt as ->.
  - intros Hno. split.
    + rewrite attempt_spec, Ho. cbv zeta. rewrite Hs, Z.eqb_refl, Hrf.
      assert (has_refresh w && (1 <? retries) = false) as ->.
      { destruct Hno as [-> | Hle]; [done|].
        apply Z.ltb_ge in Hle as ->. apply andb_false_r. }
      apply resolve_table_error. by rewrite Hs.
    + apply (census_stop env c); [apply clear_later|]. by rewrite emitted_clear.
Qed.

Lemma backoff_events_3 env w : backoff_events env 3 w = [].
Proof. reflexivity. Qed.

Lemma backoff_events_2 env w :
  backoff_events env 2 w =
  [Slept (sleep_seconds 2 (random_random env (tally is_slept (trace w))))].
Proof. reflexivity. Qed.

Lemma outgoing_valid env c w t :
  access_token w = Some t -> Authorizer.is_valid w = true ->
  req_headers (outgoing env c w).1 = [("Authorization", "bearer " +:+ t)]%string /\
  access_token (outgoing env c w).2 = Some t.
Proof.
  intros H Hv. unfold outgoing, _set_header_callback.
  rewrite Hv. cbn. by rewrite H.
Qed.

Lemma outgoing_refresh env c w :
  access_token w = None -> has_refresh w = true ->
  let fresh_token := token_grant env (tally is_refreshed (trace w)) in
  req_headers (outgoing env c w).1 =
    [("Authorization", "bearer " +:+ fresh_token)]%string /\
  access_token (outgoing env c w).2 = Some fresh_token.
Proof.
  intros H1 H2. unfold outgoing, _set_header_callback, Authorizer.is_valid.
  rewrite H1, H2. by cbn.
Qed.

Lemma after_send_token env c retries w :
  access_token (after_send env c retries w) =
  access_token (outgoing env c (before_send env retries w)).2.
Proof.
  unfold after_send. by destruct (outgoing env c (before_send env retries w)).
Qed.

(** [401, 200] with a refresh-capable authorizer and a budget of 3. *)
Lemma unauthorized_then_ok env c w r1 r2 v :
  attempt_outcome env c 3 w = Respond r1 ->
  answers env (S (tally is_sent (trace w))) (Respond r2) ->
  status r1 = 401 -> status r2 = 200 ->
  headers_get "content-length" (headers r2) <> Some "0"%string ->
  json_loads env (body r2) = Some v ->
  has_refresh w = true ->
  let res := _request_with_retries env c 3 w in
  let first_headers := header_events env (before_send env 3 w) in
  res.1 = inr v /\
  exists req1 req2 q fresh_token,
    emitted w res.2 =
      Attempt 3 :: first_headers ++
      [Sent req1; TokenCleared; Retrying (inr 401);
       Attempt 2; Slept q; Refreshed fresh_token; Sent req2] /\
    tally is_cleared (emitted w res.2) = 1%nat /\
    tally is_refreshed (emitted w res.2) =
      S (tally is_refreshed first_headers) /\
    req_headers req2 = [("Authorization", "bearer " +:+ fresh_token)]%string /\
    access_token res.2 = Some fresh_token /\
    (forall t, access_token w = Some t -> Authorizer.is_valid w = true ->
       first_headers = [] /\
       req_headers req1 = [("Authorization", "bearer " +:+ t)]%string /\
       fresh_token = token_grant env (tally is_refreshed (trace w))).
Proof.
  intros Ho1 H2 Hs1 Hs2 Hcl Hv Hrf res first_headers.
  destruct (step_unauthorized env c 3 w r1 Ho1 Hs1) as [Hgo _].
  specialize (Hgo Hrf ltac:(lia)).
  set (ws := after_send env c 3 w) in *.
  set (w2 := emit (Retrying (inr 401)) (Authorizer._clear_access_token ws)) in *.
  assert (Htr2 : trace w2 =
            trace w ++ Attempt 3 :: first_headers ++
                       [Sent (outgoing env c (before_send env 3 w)).1;
                        TokenCleared; Retrying (inr 401)]).
  { subst w2 ws. cbn [emit trace Authorizer._clear_access_token with_token].
    rewrite after_send_trace, backoff_events_3. unfold first_headers.
    by flatten_trace. }
  assert (Hn2 : tally is_sent (trace w2) = S (tally is_sent (trace w))).
  { rewrite Htr2, tally_app.
    change (Attempt 3 :: ?l) with ([Attempt 3] ++ l).
    rewrite !tally_app. unfold first_headers. rewrite tally_sent_header.
    cbn. lia. }
  rewrite <- Hn2 in H2.
  destruct (step_resolve env c (3 - 1) w2 r2 H2) as [Hres _].
  { rewrite Hs2. unfold codes.unauthorized. lia. }
  { right. rewrite Hs2, retry_statuses_elem. lia. }
  set (wf := after_send env c (3 - 1) w2) in *.
  assert (Hres' : res = (inr v, wf)).
  { subst res. rewrite Hgo, Hres, resolve_success by auto.
    by rewrite bool_decide_eq_false_2, Hv. }
  assert (Htok2 : access_token (before_send env (3 - 1) w2) = None)
    by (by rewrite before_send_token).
  assert (Hrf2 : has_refresh (before_send env (3 - 1) w2) = true).
  { destruct (before_send_later env (3 - 1) w2) as (_ & -> & _).
    destruct (after_send_later env c 3 w) as (_ & E & _).
    subst w2 ws.
    cbn [emit has_refresh Authorizer._clear_access_token with_token].
    by rewrite E. }
  destruct (outgoing_refresh env c _ Htok2 Hrf2) as [Hh2 Ht2].
  cbv zeta in Hh2, Ht2.
  rewrite Hres'. cbn [fst snd]. split; [done|].
  assert (Hem : emitted w wf =
            Attempt 3 :: first_headers ++
            [Sent (outgoing env c (before_send env 3 w)).1; TokenCleared;
             Retrying (inr 401); Attempt 2;
             Slept (sleep_seconds 2
                      (random_random env
                         (tally is_slept (trace (emit (Attempt (3 - 1)) w2)))));
             Refreshed (token_grant env
                          (tally is_refreshed
                             (trace (before_send env (3 - 1) w2))));
             Sent (outgoing env c (before_send env (3 - 1) w2)).1]).
  { apply emitted_app. subst wf.
    rewrite after_send_trace, Htr2, backoff_events_2.
    rewrite (header_events_refresh env _ Htok2 Hrf2).
    by flatten_trace. }
  eexists _, _, _, _. split; [exact Hem|].
  split; [|split; [|split; [|split]]].
  - rewrite Hem. change (Attempt 3 :: ?l) with ([Attempt 3] ++ l).
    rewrite !tally_app. unfold first_headers, header_events.
    by destruct (negb _ && _).
  - rewrite Hem. change (Attempt 3 :: ?l) with ([Attempt 3] ++ l).
    rewrite !tally_app. cbn. lia.
  - exact Hh2.
  - subst wf. by rewrite after_send_token.
  - intros t Htok Hvalid.
    assert (Hfh : first_headers = []).
    { unfold first_headers.
      by rewrite header_events_valid by (by rewrite before_send_valid). }
    split; [exact Hfh|]. split.
    + by apply outgoing_valid; rewrite ?before_send_token, ?before_send_valid.
    + f_equal. rewrite before_send_trace, Htr2, Hfh, backoff_events_2, !tally_app.
      cbn. lia.
Qed.

(** C2: every 401 answer clears the cached token.  With a refresh-capable
    authorizer the retry is then taken whenever more than one attempt
    remains, although 401 is not a retryable status.  After [401, 200] with
    a budget of 3 the token was cleared once and refreshed exactly once
    between the 401 and the second request, which carries the new token, and
    the call returns the decoded body; when the cached token was valid at
    the start this is the only refresh of the call.  Without the capability
    the 401 ends the call at once with AuthError carrying the response, and
    no retry. *)
Theorem C2_unauthorized (env : Env) (c : Call) (retries : Z) (w : World)
    (r : Response) :
  attempt_outcome env c retries w = Respond r ->
  status r = 401 ->
  let ws := after_send env c retries w in
  let wc := Authorizer._clear_access_token ws in
  let res := _request_with_retries env c retries w in
  (access_token wc = None /\ emitted ws wc = [TokenCleared]) /\
  (codes.unauthorized ∉ RETRY_STATUSES) /\
  (has_refresh w = true -> 1 < retries ->
   retried env c retries w = true /\
   res = _request_with_retries env c (retries - 1)
           (emit (Retrying (inr 401)) wc)) /\
  (has_refresh w = false \/ retries <= 1 ->
   retried env c retries w = false /\
   res = (inl (ResponseException AuthError r), wc) /\
   census (emitted w res.2) = ([retries], 1%nat, 0%nat)) /\
  (forall r2 v,
     retries = 3 ->
     answers env (S (tally is_sent (trace w))) (Respond r2) ->
     status r2 = 200 ->
     headers_get "content-length" (headers r2) <> Some "0"%string ->
     json_loads env (body r2) = Some v ->
     has_refresh w = true ->
     let first_headers := header_events env (before_send env 3 w) in
     res.1 = inr v /\
     exists req1 req2 q fresh_token,
       emitted w res.2 =
         Attempt 3 :: first_headers ++
         [Sent req1; TokenCleared; Retrying (inr 401);
          Attempt 2; Slept q; Refreshed fresh_token; Sent req2] /\
       tally is_cleared (emitted w res.2) = 1%nat /\
       tally is_refreshed (emitted w res.2) =
         S (tally is_refreshed first_headers) /\
       req_headers req2 =
         [("Authorization", "bearer " +:+ fresh_token)]%string /\
       access_token res.2 = Some fresh_token /\
       (forall t, access_token w = Some t -> Authorizer.is_valid w = true ->
          first_headers = [] /\
          req_headers req1 = [("Authorization", "bearer " +:+ t)]%string /\
          fresh_token = token_grant env (tally is_refreshed (trace w)))).
Proof.
  intros Ho Hs ws wc res.
  destruct (step_unauthorized env c retries w r Ho Hs) as [Hgo Hstop].
  fold ws wc in Hgo, Hstop.
  split; [|split; [|split; [|split]]].
  - split; [done | apply emitted_clear].
  - apply unauthorized_not_retry_status.
  - intros Hrf Hgt. split; [|by apply Hgo].
    rewrite retried_spec, Ho, Hs, Hrf. by apply Z.ltb_lt in Hgt as ->.
  - intros Hno. destruct (Hstop Hno) as [E C]. split; [|split].
    + rewrite retried_spec, Ho, Hs. cbn.
      destruct Hno as [-> | Hle]; [done|].
      apply Z.ltb_ge in Hle as ->. apply andb_false_r.
    + exact E.
    + subst res. by rewrite E.
  - intros r2 v -> H2 Hs2 Hcl Hv Hrf.
    by apply (unauthorized_then_ok env c w r r2 v).
Qed.

Lemma C2_unauthorized_witness :
  let env := Scenario.scripted [Respond (Scenario.reply 401 EmptyString);
                                Respond (Scenario.reply 200 "{}")] in
  let w := Scenario.start true in
  access_token
    (Authorizer._clear_access_token (after_send env Scenario.get 3 w)) = None /\
  (_request_with_retries env Scenario.get 3 w).1 = inr (PDict []).
Proof.
  intros env w.
  pose proof (C2_unauthorized env Scenario.get 3 w (Scenario.reply 401 EmptyString)
                eq_refl eq_refl) as (Hclear & _ & _ & _ & Hrun).
  split; [exact (proj1 Hclear)|].
  refine (proj1 (Hrun (Scenario.reply 200 "{}") (PDict [])
                   eq_refl _ eq_refl _ eq_refl eq_refl)).
  - intros req. reflexivity.
  - discriminate.
Defined.

(** ** Binary64 rounding *)

Lemma pow2_pos e : (0 < binary64.pow2 e)%Q.
Proof. apply Qpower_0_lt. reflexivity. Qed.

Lemma pow2_add a b :
  (binary64.pow2 (a + b) == binary64.pow2 a * binary64.pow2 b)%Q.
Proof. apply Qpower_plus. discriminate. Qed.

Lemma pow2_lt a b : a < b -> (binary64.pow2 a < binary64.pow2 b)%Q.
Proof. intros H. apply Qpower_lt_compat_l; [exact H | reflexivity]. Qed.

Lemma pow2_le a b : a <= b -> (binary64.pow2 a <= binary64.pow2 b)%Q.
Proof. intros H. apply Qpower_le_compat_l; [exact H | discriminate]. Qed.

Lemma pow2_Z a : 0 <= a -> (binary64.pow2 a == inject_Z (2 ^ a))%Q.
Proof. intros H. unfold binary64.pow2. by rewrite Zpower_Qpower. Qed.

(** [ilog2 x] is the exponent of the binade of [x]. *)
Lemma ilog2_spec (x : Q) :
  (0 < x)%Q ->
  (binary64.pow2 (binary64.ilog2 x) <= x < binary64.pow2 (binary64.ilog2 x + 1))%Q.
Proof.
  intros Hx. destruct x as [n d].
  assert (Hn : 0 < n) by (unfold Qlt in Hx; cbn in Hx; lia).
  unfold binary64.ilog2. cbn [Qnum Qden].
  set (a := Z.log2 n). set (b := Z.log2 (Z.pos d)).
  destruct (Z.log2_spec n Hn) as [Ha1 Ha2]. fold a in Ha1, Ha2.
  destruct (Z.log2_spec (Z.pos d) ltac:(lia)) as [Hb1 Hb2]. fold b in Hb1, Hb2.
  assert (Ha0 : 0 <= a) by apply Z.log2_nonneg.
  assert (Hb0 : 0 <= b) by apply Z.log2_nonneg.
  (* n # d as a quotient of the two bounds *)
  assert (Hup : (n # d < binary64.pow2 (a - b + 1))%Q).
  { replace (a - b + 1) with ((a + 1) + - b) by lia.
    rewrite pow2_add. unfold binary64.pow2 at 2. rewrite Qpower_opp.
    fold (binary64.pow2 b). rewrite (pow2_Z b), (pow2_Z (a + 1)) by lia.
    assert (0 < 2 ^ b) by (apply Z.pow_pos_nonneg; lia).
    apply Qlt_shift_div_l; [change (inject_Z 0 < inject_Z (2 ^ b))%Q; by rewrite <- Zlt_Qlt|].
    unfold Qlt, Qmult, inject_Z. cbn [Qnum Qden].
    rewrite ?Pos.mul_1_r, ?Z.pow_add_r in * by lia. change (Z.succ ?x) with (x + 1) in *. rewrite ?Z.pow_add_r in * by lia. nia. }
  assert (Hlo : (binary64.pow2 (a - b - 1) < n # d)%Q).
  { replace (a - b - 1) with (a + - (b + 1)) by lia.
    rewrite pow2_add. unfold binary64.pow2 at 2. rewrite Qpower_opp.
    fold (binary64.pow2 (b + 1)). rewrite (pow2_Z a), (pow2_Z (b + 1)) by lia.
    assert (0 < 2 ^ (b + 1)) by (apply Z.pow_pos_nonneg; lia).
    apply Qlt_shift_div_r; [change (inject_Z 0 < inject_Z (2 ^ (b + 1)))%Q; by rewrite <- Zlt_Qlt|].
    unfold Qlt, Qmult, inject_Z. cbn [Qnum Qden].
    rewrite ?Pos.mul_1_r, ?Z.pow_add_r in * by lia. change (Z.succ ?x) with (x + 1) in *. rewrite ?Z.pow_add_r in * by lia. nia. }
  destruct (Qle_bool (binary64.pow2 (a - b)) (n # d)) eqn:E.
  - apply Qle_bool_iff in E. split; [exact E | exact Hup].
  - split; [by apply Qlt_le_weak|].
    replace (a - b - 1 + 1) with (a - b) by lia.
    apply Qnot_le_lt. intros H. apply Qle_bool_iff in H. congruence.
Qed.

Lemma ilog2_unique (x : Q) (e : Z) :
  (binary64.pow2 e <= x < binary64.pow2 (e + 1))%Q -> binary64.ilog2 x = e.
Proof.
  intros [Hlo Hhi].
  assert (Hx : (0 < x)%Q) by (eapply Qlt_le_trans; [apply pow2_pos | exact Hlo]).
  destruct (ilog2_spec x Hx) as [Hlo' Hhi'].
  set (e' := binary64.ilog2 x) in *.
  assert (e' < e + 1).
  { apply (Qpower_lt_compat_l_inv 2); [|reflexivity].
    eapply Qle_lt_trans; [exact Hlo' | exact Hhi]. }
  assert (e < e' + 1).
  { apply (Qpower_lt_compat_l_inv 2); [|reflexivity].
    eapply Qle_lt_trans; [exact Hlo | exact Hhi']. }
  lia.
Qed.

Lemma ilog2_comp (x y : Q) :
  (0 < x)%Q -> (x == y)%Q -> binary64.ilog2 x = binary64.ilog2 y.
Proof.
  intros Hx Hxy. symmetry. apply ilog2_unique. rewrite <- Hxy.
  by apply ilog2_spec.
Qed.

Lemma ilog2_double (x : Q) :
  (0 < x)%Q -> binary64.ilog2 (2 * x) = binary64.ilog2 x + 1.
Proof.
  intros Hx. apply ilog2_unique.
  destruct (ilog2_spec x Hx) as [Hlo Hhi].
  rewrite !(pow2_add _ 1) in *. change (binary64.pow2 1) with 2%Q in *. lra.
Qed.

Lemma ulp_exponent_comp (x y : Q) :
  ~ (x == 0)%Q -> (x == y)%Q ->
  binary64.ulp_exponent x = binary64.ulp_exponent y.
Proof.
  intros Hx Hxy. unfold binary64.ulp_exponent. f_equal. f_equal.
  apply ilog2_comp; [|by rewrite Hxy].
  destruct (Qlt_le_dec 0 (Qabs x)) as [|Hle]; [done|].
  exfalso. apply Hx. apply Qabs_Qle_condition in Hle. lra.
Qed.

Lemma round_half_even_comp (x y : Q) :
  (x == y)%Q -> binary64.round_half_even x = binary64.round_half_even y.
Proof.
  intros Hxy. unfold binary64.round_half_even.
  rewrite (Qfloor_comp _ _ Hxy).
  assert ((x - inject_Z (Qfloor y) ?= 1 # 2)%Q =
          (y - inject_Z (Qfloor y) ?= 1 # 2)%Q) as ->; [|done].
  apply Qcompare_comp; [by rewrite Hxy | reflexivity].
Qed.

Lemma round_half_even_Z (k : Z) : binary64.round_half_even (inject_Z k) = k.
Proof.
  unfold binary64.round_half_even. rewrite Qfloor_Z.
  assert ((inject_Z k - inject_Z k ?= 1 # 2)%Q = Lt) as ->; [|done].
  rewrite <- Qlt_alt. lra.
Qed.

(** Rounding moves by at most one half. *)
Lemma round_half_even_near (x : Q) :
  (x - (1 # 2) <= inject_Z (binary64.round_half_even x) <= x + (1 # 2))%Q.
Proof.
  unfold binary64.round_half_even.
  pose proof (Qfloor_le x) as Hlo. pose proof (Qlt_floor x) as Hhi.
  rewrite inject_Z_plus in Hhi. change (inject_Z 1) with 1%Q in Hhi.
  destruct (x - inject_Z (Qfloor x) ?= 1 # 2)%Q eqn:E.
  - apply Qeq_alt in E. destruct (Z.even (Qfloor x));
      rewrite ?inject_Z_plus; change (inject_Z 1) with 1%Q; lra.
  - apply Qlt_alt in E. lra.
  - apply Qgt_alt in E. rewrite inject_Z_plus. change (inject_Z 1) with 1%Q. lra.
Qed.

Lemma round_half_even_between (x : Q) (a b : Z) :
  (inject_Z a <= x <= inject_Z b)%Q ->
  a <= binary64.round_half_even x <= b.
Proof.
  intros [Ha Hb].
  assert (Hfa : a <= Qfloor x).
  { rewrite <- (Qfloor_Z a). by apply Qfloor_resp_le. }
  unfold binary64.round_half_even.
  pose proof (Qfloor_le x) as Hlo.
  destruct (Z.eq_dec (Qfloor x) b) as [Heq | Hne].
  - assert (x == inject_Z b)%Q as Hxb by (rewrite Heq in Hlo; lra).
    assert ((x - inject_Z (Qfloor x) ?= 1 # 2)%Q = Lt) as ->; [|lia].
    rewrite <- Qlt_alt, Heq. lra.
  - assert (Qfloor x <= b).
    { rewrite <- (Qfloor_Z b). by apply Qfloor_resp_le. }
    destruct (x - inject_Z (Qfloor x) ?= 1 # 2)%Q; [destruct (Z.even _)|..]; lia.
Qed.

Lemma round_comp (x y : Q) : (x == y)%Q -> (binary64.round x == binary64.round y)%Q.
Proof.
  intros Hxy. unfold binary64.round.
  destruct (Qeq_bool x 0) eqn:Ex.
  - apply Qeq_bool_iff in Ex.
    assert (Qeq_bool y 0 = true) as -> by (apply Qeq_bool_iff; by rewrite <- Hxy).
    reflexivity.
  - apply Qeq_bool_neq in Ex.
    assert (Qeq_bool y 0 = false) as ->.
    { destruct (Qeq_bool y 0) eqn:Ey; [|done].
      apply Qeq_bool_iff in Ey. exfalso. apply Ex. by rewrite Hxy. }
    cbv zeta. rewrite (ulp_exponent_comp x y Ex Hxy).
    rewrite (round_half_even_comp (x / _) (y / binary64.pow2 (binary64.ulp_exponent y)));
      [reflexivity | by rewrite Hxy].
Qed.

(** A multiple of a power of two at or above the unit in the last place is
    a binary64 number: rounding leaves it as it is. *)
Lemma round_exact (x : Q) (m p : Z) :
  (x == inject_Z m * binary64.pow2 p)%Q -> binary64.ulp_exponent x <= p ->
  (binary64.round x == x)%Q.
Proof.
  intros Hx Hp. unfold binary64.round.
  destruct (Qeq_bool x 0) eqn:Ex; [apply Qeq_bool_iff in Ex; by rewrite Ex|].
  cbv zeta. set (q := binary64.ulp_exponent x) in *.
  assert (Hq : (x / binary64.pow2 q == inject_Z (m * 2 ^ (p - q)))%Q).
  { rewrite Hx, inject_Z_mult, <- pow2_Z by lia.
    replace p with ((p - q) + q) at 1 by lia. rewrite pow2_add.
    pose proof (pow2_pos q). field. lra. }
  rewrite (round_half_even_comp _ _ Hq), round_half_even_Z, <- Hq.
  pose proof (pow2_pos q). field. lra.
Qed.

Lemma is_float_spec (x : Q) :
  binary64.is_float x = true -> (binary64.round x == x)%Q.
Proof.
  unfold binary64.is_float. intros [H _]%andb_true_iff.
  by apply Qeq_bool_iff.
Qed.

(** Doubling a binary64 number is exact. *)
Lemma mul_two_exact (u : Q) :
  binary64.is_float u = true -> (binary64.mul 2 u == 2 * u)%Q.
Proof.
  intros Hu. apply is_float_spec in Hu. unfold binary64.mul.
  destruct (Qeq_dec u 0) as [H0 | Hne].
  { rewrite (round_comp (2 * u) 0) by (rewrite H0; reflexivity).
    rewrite H0. reflexivity. }
  unfold binary64.round in Hu.
  assert (Qeq_bool u 0 = false) as Eu.
  { destruct (Qeq_bool u 0) eqn:E; [|done]. by apply Qeq_bool_iff in E. }
  rewrite Eu in Hu. cbv zeta in Hu.
  set (p := binary64.ulp_exponent u) in *.
  set (m := binary64.round_half_even (u / binary64.pow2 p)) in *.
  apply (round_exact _ m (p + 1)).
  - rewrite pow2_add. change (binary64.pow2 1) with 2%Q. rewrite <- Hu at 1. ring.
  - unfold binary64.ulp_exponent in *.
    assert (Hpos : (0 < Qabs u)%Q).
    { destruct (Qlt_le_dec 0 (Qabs u)) as [|Hle]; [done|].
      exfalso. apply Hne. apply Qabs_Qle_condition in Hle. lra. }
    rewrite (ilog2_comp (Qabs (2 * u)) (2 * Qabs u)).
    + rewrite ilog2_double by done. lia.
    + rewrite Qabs_Qmult. change (Qabs 2) with 2%Q. lra.
    + by rewrite Qabs_Qmult.
Qed.

(** In the binade of 2 the unit in the last place is [2 ^ -51]: rounding
    stays within [2, 4] and moves by at most [2 ^ -52]. *)
Lemma round_binade_two (x : Q) :
  (2 <= x < 4)%Q ->
  (2 <= binary64.round x <= 4)%Q /\
  (x - binary64.pow2 (-52) <= binary64.round x <= x + binary64.pow2 (-52))%Q.
Proof.
  intros Hx. unfold binary64.round.
  assert (Qeq_bool x 0 = false) as ->.
  { destruct (Qeq_bool x 0) eqn:E; [|done]. apply Qeq_bool_iff in E. lra. }
  cbv zeta.
  assert (binary64.ulp_exponent x = -51) as ->.
  { unfold binary64.ulp_exponent.
    rewrite (ilog2_comp (Qabs x) x), (ilog2_unique x 1); [lia | | | ].
    - change (binary64.pow2 1) with 2%Q. change (binary64.pow2 (1 + 1)) with 4%Q. lra.
    - rewrite Qabs_pos; lra.
    - apply Qabs_pos. lra. }
  set (s := (x / binary64.pow2 (-51))%Q).
  assert (Hs : (s == x * inject_Z (2 ^ 51))%Q).
  { subst s. unfold Qdiv.
    assert (/ binary64.pow2 (-51) == inject_Z (2 ^ 51))%Q as -> by reflexivity.
    reflexivity. }
  pose proof (round_half_even_near s) as Hnear.
  pose proof (round_half_even_between s (2 ^ 52) (2 ^ 53)) as Hbt.
  set (k := binary64.round_half_even s) in *.
  assert (Hb : 2 ^ 52 <= k <= 2 ^ 53).
  { apply Hbt. rewrite Hs.
    change (inject_Z (2 ^ 52)) with (2 * inject_Z (2 ^ 51))%Q.
    change (inject_Z (2 ^ 53)) with (4 * inject_Z (2 ^ 51))%Q.
    assert (0 < inject_Z (2 ^ 51))%Q by reflexivity. split; nra. }
  assert (Hp : (binary64.pow2 (-51) * inject_Z (2 ^ 51) == 1)%Q) by reflexivity.
  assert (Hp' : (binary64.pow2 (-52) == binary64.pow2 (-51) * (1 # 2))%Q) by reflexivity.
  pose proof (pow2_pos (-51)) as Hpp.
  destruct Hb as [Hb1 Hb2].
  rewrite Zle_Qle in Hb1, Hb2.
  change (inject_Z (2 ^ 52)) with (2 * inject_Z (2 ^ 51))%Q in Hb1.
  change (inject_Z (2 ^ 53)) with (4 * inject_Z (2 ^ 51))%Q in Hb2.
  rewrite Hs in Hnear. rewrite Hp'.
  set (P := binary64.pow2 (-51)) in *. set (K := inject_Z k) in *.
  set (T := inject_Z (2 ^ 51)) in *.
  split; split; nra.
Qed.

(** ** C5: the back-off sleep *)

(** With two attempts remaining the duration is twice the draw, exactly. *)
Lemma sleep_seconds_two (u : Q) :
  unit_draw u ->
  (sleep_seconds 2 u == 2 * u)%Q /\ (0 <= sleep_seconds 2 u < 2)%Q.
Proof.
  intros [Hf Hu]. unfold sleep_seconds. cbn [Z.eqb Pos.eqb].
  pose proof (mul_two_exact u Hf) as Hm.
  assert (E : (binary64.add (inject_Z 0) (binary64.mul 2 u) == 2 * u)%Q).
  { unfold binary64.add.
    rewrite (round_comp _ (2 * u)) by (rewrite Hm; unfold inject_Z; ring).
    exact Hm. }
  split; [exact E | rewrite E; lra].
Qed.

(** With fewer the duration is [2 + 2 * u] rounded, which can reach 4. *)
Lemma sleep_seconds_low (retries : Z) (u : Q) :
  retries <> 2 -> unit_draw u ->
  (sleep_seconds retries u == binary64.round (2 + 2 * u))%Q /\
  (2 <= sleep_seconds retries u <= 4)%Q /\
  (2 + 2 * u - binary64.pow2 (-52) <= sleep_seconds retries u
   <= 2 + 2 * u + binary64.pow2 (-52))%Q.
Proof.
  intros Hne [Hf Hu]. unfold sleep_seconds. apply Z.eqb_neq in Hne as ->.
  pose proof (mul_two_exact u Hf) as Hm.
  assert (E : (binary64.add (inject_Z 2) (binary64.mul 2 u) ==
               binary64.round (2 + 2 * u))%Q).
  { unfold binary64.add. apply round_comp. rewrite Hm. unfold inject_Z. ring. }
  destruct (round_binade_two (2 + 2 * u)) as [Hb Hn]; [lra|].
  split; [exact E|]. rewrite E. split; [exact Hb | exact Hn].
Qed.


(** A retryable transport failure while attempts remain. *)
Lemma step_retry_failure env c retries w e :
  attempt_outcome env c retries w = HttpRaise e ->
  isinstance e RETRY_EXCEPTIONS = true -> 1 < retries ->
  _request_with_retries env c retries w =
  _request_with_retries env c (retries - 1)
    (emit (Retrying (inl e)) (after_send env c retries w)).
Proof.
  intros Ho He Hgt. rewrite attempt_spec, Ho. cbv zeta.
  rewrite He. by apply Z.ltb_lt in Hgt as ->.
Qed.


(** A connection error of the kind that is retried, then success, with a
    budget of 3: one retry, and the sleep lies between the two requests. *)
Example connection_error_then_success :
  let env := Scenario.scripted [HttpRaise Scenario.connection_error;
                                Respond (Scenario.reply 200 "{}")] in
  let res := _request_with_retries env Scenario.get 3 (Scenario.start true) in
  res.1 = inr (PDict []) /\
  exists req1 req2 q,
    emitted (Scenario.start true) res.2 =
      [Attempt 3; Sent req1; Retrying (inl Scenario.connection_error);
       Attempt 2; Slept q; Sent req2] /\
    (0 <= q < 2)%Q.
Proof.
  cbv zeta. split; [by vm_compute|].
  eexists _, _, _. split; [vm_compute; reflexivity|].
  split; [discriminate | reflexivity].
Qed.



(** ** C6: transport failures *)

Lemma isinstance_retry_exceptions (e : PyException) :
  isinstance e RETRY_EXCEPTIONS = true <->
  "requests.exceptions.ChunkedEncodingError"%string ∈ exc_mro e \/
  "requests.exceptions.ConnectionError"%string ∈ exc_mro e \/
  "requests.exceptions.ReadTimeout"%string ∈ exc_mro e.
Proof.
  unfold isinstance, RETRY_EXCEPTIONS. cbn [existsb].
  rewrite !orb_true_iff, !bool_decide_eq_true. intuition discriminate.
Qed.

Lemma requestor_wraps env req w e :
  http_request env (tally is_sent (trace w)) req = HttpRaise e ->
  Requestor.request env req w = (inl (RequestException e req), emit (Sent req) w).
Proof. intros H. unfold Requestor.request. by rewrite H. Qed.

Lemma requestor_raises_only_wrapped env req w x w' :
  Requestor.request env req w = (inl x, w') ->
  exists e, x = RequestException e req /\
            http_request env (tally is_sent (trace w)) req = HttpRaise e.
Proof.
  unfold Requestor.request.
  destruct (http_request env _ req) as [r|e]; [done|].
  intros [= <- <-]. by exists e.
Qed.

(** What the code does with a transport failure: whatever the HTTP client
    raises leaves [Requestor.request] as one
    [RequestException] holding the original exception and the arguments of
    the call, and nothing else is ever raised there.  The session then
    retries exactly when more than one attempt remains and the original
    exception is an instance of the ChunkedEncodingError, ConnectionError or
    ReadTimeout of [requests]; for any other cause, or on the last attempt,
    that same
    [RequestException] is re-raised right after the request, with no retry. *)
Theorem transport_failure_rule (env : Env) (c : Call) (retries : Z) (w : World)
    (e : PyException) :
  attempt_outcome env c retries w = HttpRaise e ->
  let req := (outgoing env c (before_send env retries w)).1 in
  let ws := after_send env c retries w in
  let res := _request_with_retries env c retries w in
  (forall req' w' e',
     http_request env (tally is_sent (trace w')) req' = HttpRaise e' ->
     Requestor.request env req' w' =
       (inl (RequestException e' req'), emit (Sent req') w')) /\
  (forall req' w' x w'',
     Requestor.request env req' w' = (inl x, w'') ->
     exists e', x = RequestException e' req') /\
  (req_method req = method c /\ req_url req = url c /\
   req_allow_redirects req = false /\ req_json req = json c) /\
  (isinstance e RETRY_EXCEPTIONS = true <->
   "requests.exceptions.ChunkedEncodingError"%string ∈ exc_mro e \/
   "requests.exceptions.ConnectionError"%string ∈ exc_mro e \/
   "requests.exceptions.ReadTimeout"%string ∈ exc_mro e) /\
  (retried env c retries w = true <->
   1 < retries /\ isinstance e RETRY_EXCEPTIONS = true) /\
  (1 < retries -> isinstance e RETRY_EXCEPTIONS = true ->
   res = _request_with_retries env c (retries - 1)
           (emit (Retrying (inl e)) ws)) /\
  (retries <= 1 \/ isinstance e RETRY_EXCEPTIONS = false ->
   res = (inl (RequestException e req), ws) /\
   census (emitted w res.2) = ([retries], 1%nat, 0%nat)).
Proof.
  intros Ho req ws res.
  split; [intros; by apply requestor_wraps|].
  split.
  { intros req' w' x w'' H.
    apply requestor_raises_only_wrapped in H as (e' & -> & _). by exists e'. }
  split.
  { subst req. unfold outgoing.
    by destruct (_set_header_callback env (before_send env retries w)). }
  split; [apply isinstance_retry_exceptions|].
  split.
  { rewrite retried_spec, Ho, andb_true_iff, Z.ltb_lt. tauto. }
  split.
  { intros Hgt He. by apply step_retry_failure. }
  intros Hno.
  assert (E : res = (inl (RequestException e req), ws)).
  { subst res. rewrite attempt_spec, Ho. cbv zeta.
    assert ((1 <? retries) && isinstance e RETRY_EXCEPTIONS = false) as ->; [|done].
    destruct Hno as [Hle | ->]; [|apply andb_false_r].
    by apply Z.ltb_ge in Hle as ->. }
  split; [exact E|]. rewrite E.
  apply (census_stop env c); [apply later_refl | by rewrite emitted_nil].
Qed.

(** No class of another package is one of the three classes of [requests]:
    an exception whose classes all come from elsewhere, as those of the
    aiohttp client do, is re-raised on any attempt. *)
Lemma foreign_cause_not_retryable (e : PyException) :
  forallb (fun cls => negb (defined_in_requests cls)) (exc_mro e) = true ->
  isinstance e RETRY_EXCEPTIONS = false.
Proof.
  intros H. rewrite forallb_forall in H.
  destruct (isinstance e RETRY_EXCEPTIONS) eqn:E; [|done].
  apply isinstance_retry_exceptions in E.
  destruct E as [E | [E | E]];
    apply list_elem_of_In in E; apply H in E; discriminate E.
Qed.

Lemma foreign_cause_reraised env c retries w e :
  attempt_outcome env c retries w = HttpRaise e ->
  forallb (fun cls => negb (defined_in_requests cls)) (exc_mro e) = true ->
  _request_with_retries env c retries w =
    (inl (RequestException e (outgoing env c (before_send env retries w)).1),
     after_send env c retries w) /\
  retried env c retries w = false.
Proof.
  intros Ho Hf. apply foreign_cause_not_retryable in Hf.
  split.
  - apply (transport_failure_rule env c retries w e Ho). by right.
  - rewrite retried_spec, Ho, Hf. apply andb_false_r.
Qed.

(** C6: a connection failure of the aiohttp client on the first attempt of
    a call with a budget of 3 is not retried.  [ClientConnectorError] is not
    an instance of a class that [RETRY_EXCEPTIONS] names, those being
    classes of [requests]; the [RequestException] that wraps it is re-raised
    after one request, although two attempts remain and the next answer
    would have been a 200. *)
Theorem C6_connection_error_not_retried :
  let env := Scenario.scripted [HttpRaise Scenario.client_connector_error;
                                Respond (Scenario.reply 200 "{}")] in
  let w := Scenario.start true in
  let res := _request_with_retries env Scenario.get 3 w in
  attempt_outcome env Scenario.get 3 w =
    HttpRaise Scenario.client_connector_error /\
  isinstance Scenario.client_connector_error RETRY_EXCEPTIONS = false /\
  retried env Scenario.get 3 w = false /\
  res.1 = inl (RequestException Scenario.client_connector_error
                 (outgoing env Scenario.get (before_send env 3 w)).1) /\
  census (emitted w res.2) = ([3], 1%nat, 0%nat) /\
  answers env 1 (Respond (Scenario.reply 200 "{}")).
Proof.
  intros env w res.
  assert (Ho : attempt_outcome env Scenario.get 3 w =
               HttpRaise Scenario.client_connector_error) by reflexivity.
  destruct (foreign_cause_reraised env Scenario.get 3 w _ Ho eq_refl)
    as [E Hno].
  split; [exact Ho|].
  split; [by apply foreign_cause_not_retryable|].
  split; [exact Hno|].
  subst res. rewrite E. split; [reflexivity|].
  split; [|by intros req].
  apply (transport_failure_rule env Scenario.get 3 w _ Ho).
  right. by apply foreign_cause_not_retryable.
Qed.

(** ** Canonical arguments: the heap *)

Lemma alloc_fresh d h : h !! (alloc d h).1 = None.
Proof. unfold alloc. cbn. apply not_elem_of_dom, is_fresh. Qed.

Lemma alloc_content d h : (alloc d h).2 !!! (alloc d h).1 = d.
Proof. unfold alloc. cbn. apply lookup_total_insert_eq. Qed.

Lemma alloc_preserves d h l x :
  h !! l = Some x -> (alloc d h).2 !! l = Some x.
Proof.
  intros H. unfold alloc. cbn. rewrite lookup_insert_ne; [done|].
  intros E. pose proof (alloc_fresh d h) as F. unfold alloc in F. cbn in F.
  congruence.
Qed.

Lemma setitem_other l k v h l' :
  l <> l' -> setitem l k v h !! l' = h !! l'.
Proof. intros Hne. unfold setitem. by rewrite lookup_insert_ne. Qed.

(** The copy of [params] is a new object with the caller's content. *)
Lemma copy_params_spec params_ h :
  let p := copy_params params_ h in
  h !! p.1 = None /\ p.2 !!! p.1 = caller_params params_ h /\
  (forall l x, h !! l = Some x -> p.2 !! l = Some x).
Proof.
  unfold copy_params, caller_params. destruct params_ as [l|].
  - unfold deepcopy.
    pose proof (alloc_fresh (h !!! l) h) as F.
    pose proof (alloc_content (h !!! l) h) as C.
    pose proof (alloc_preserves (h !!! l) h) as P.
    destruct (alloc (h !!! l) h) as [l' h']. cbn [fst snd] in *.
    destruct (size (h' !!! l') =? 0)%nat eqn:E.
    + apply Nat.eqb_eq, map_size_empty_inv in E.
      pose proof (alloc_fresh ∅ h') as F'.
      pose proof (alloc_content ∅ h') as C'.
      pose proof (alloc_preserves ∅ h') as P'.
      destruct (alloc ∅ h') as [l'' h'']. cbn [fst snd] in *.
      split; [|split].
      * destruct (h !! l'') as [x|] eqn:Hx; [|done].
        apply P in Hx. congruence.
      * congruence.
      * intros l0 x Hx. by apply P', P.
    + done.
  - cbn zeta. split; [apply alloc_fresh|].
    split; [apply alloc_content | apply alloc_preserves].
Qed.

(** [request] leaves every object that existed before as it was, and hands
    on a new [params] object: the caller's content with [raw_json] set. *)
Lemma request_heap env method_ path data_ files_ json_ params_ w :
  let cw := request env method_ path data_ files_ json_ params_ w in
  (forall l x, heap w !! l = Some x -> heap cw.2 !! l = Some x) /\
  heap cw.2 !!! params cw.1 =
    <["raw_json"%string := PInt 1]> (caller_params params_ (heap w)).
Proof.
  unfold request.
  destruct (copy_params_spec params_ (heap w)) as (F & C & P).
  destruct (copy_params params_ (heap w)) as [p1 h1]. cbn [fst snd] in *.
  set (h2 := setitem p1 "raw_json" (PInt 1) h1).
  assert (P2 : forall l x, heap w !! l = Some x -> h2 !! l = Some x).
  { intros l x Hx. unfold h2. rewrite setitem_other; [by apply P|].
    congruence. }
  assert (C2 : h2 !!! p1 = <["raw_json"%string := PInt 1]> (caller_params params_ (heap w))).
  { unfold h2, setitem. by rewrite lookup_total_insert_eq, C. }
  assert (D2 : is_Some (h2 !! p1)).
  { unfold h2, setitem. rewrite lookup_insert_eq. eauto. }
  unfold canonical_data. destruct data_ as [|s|l|its];
    try (cbn [fst snd with_heap heap params]; split; [exact P2 | exact C2]).
  unfold deepcopy.
  pose proof (alloc_fresh (h2 !!! l) h2) as F'.
  pose proof (alloc_preserves (h2 !!! l) h2) as P'.
  destruct (alloc (h2 !!! l) h2) as [l' h']. cbn [fst snd] in *.
  cbn [fst snd with_heap heap params]. split.
  - intros l0 x Hx. rewrite setitem_other; [by apply P', P2|].
    intros ->. apply P2 in Hx. congruence.
  - unfold setitem. rewrite lookup_total_insert_ne.
    + destruct D2 as [x Hx]. rewrite (lookup_total_correct _ _ _ (P' _ _ Hx)).
      by rewrite <- C2, (lookup_total_correct _ _ _ Hx).
    + intros ->. destruct D2 as [x Hx]. congruence.
Qed.

Lemma request_data env method_ path files_ json_ params_ w l d :
  heap w !! l = Some d ->
  data (request env method_ path (BodyDict l) files_ json_ params_ w).1 =
  BodyItems (sorted_items (<["api_type"%string := PStr "json"]> d)).
Proof.
  intros Hl. unfold request.
  destruct (copy_params_spec params_ (heap w)) as (F & _ & P).
  destruct (copy_params params_ (heap w)) as [p1 h1]. cbn [fst snd] in *.
  set (h2 := setitem p1 "raw_json" (PInt 1) h1).
  assert (H2 : h2 !! l = Some d).
  { unfold h2. rewrite setitem_other; [by apply P | congruence]. }
  unfold canonical_data, deepcopy.
  pose proof (alloc_content (h2 !!! l) h2) as C.
  destruct (alloc (h2 !!! l) h2) as [l' h']. cbn [fst snd] in *.
  cbn [fst data]. unfold setitem.
  by rewrite lookup_total_insert_eq, C, (lookup_total_correct _ _ _ H2).
Qed.

(** ** Canonical arguments: the sorted items *)

#[local] Instance item_le_trans : Transitive item_le.
Proof. intros a b c0. unfold item_le. apply transitivity. Qed.

#[local] Instance item_le_total : Total item_le.
Proof. intros a b. unfold item_le. apply total, _. Qed.

Lemma sorted_items_spec (d : PyDict) :
  StronglySorted item_le (sorted_items d) /\
  NoDup (sorted_items d).*1 /\
  (forall k v, (k, v) ∈ sorted_items d <-> d !! k = Some v).
Proof.
  unfold sorted_items.
  pose proof (merge_sort_Permutation item_le (map_to_list d)) as Hp.
  split; [|split].
  - apply StronglySorted_merge_sort; apply _.
  - rewrite Hp. apply NoDup_fst_map_to_list.
  - intros k v. rewrite Hp. apply elem_of_map_to_list.
Qed.

(** ** What the attempts send *)

Lemma sent_requests_app evs1 evs2 :
  sent_requests (evs1 ++ evs2) = sent_requests evs1 ++ sent_requests evs2.
Proof. apply omap_app. Qed.

Lemma sent_requests_after_send env c retries w :
  sent_requests (emitted w (after_send env c retries w)) =
  [(outgoing env c (before_send env retries w)).1].
Proof.
  rewrite after_send_emitted. unfold backoff_events, header_events.
  destruct (retries <? 3); destruct (negb _ && _); reflexivity.
Qed.

Lemma outgoing_fields env c w :
  let req := (outgoing env c w).1 in
  req_data req = snapshot (heap w) (data c) /\
  req_params req = heap w !!! params c /\
  req_method req = method c /\ req_url req = url c.
Proof.
  unfold outgoing. by destruct (_set_header_callback env w).
Qed.

(** Every request of a call carries the body and the parameters the call
    was given, read through the heap the call started in; and at least one
    request is sent. *)
Lemma sent_requests_spec env c retries w :
  let sent :=
    sent_requests (emitted w (_request_with_retries env c retries w).2) in
  sent <> [] /\
  Forall (fun req =>
            req_data req = snapshot (heap w) (data c) /\
            req_params req = heap w !!! params c /\
            req_method req = method c /\ req_url req = url c) sent.
Proof.
  apply (attempts_ind env c (fun retries w res =>
    let sent := sent_requests (emitted w res.2) in
    sent <> [] /\
    Forall (fun req =>
              req_data req = snapshot (heap w) (data c) /\
              req_params req = heap w !!! params c /\
              req_method req = method c /\ req_url req = url c) sent)).
  clear retries w. intros retries w IH. cbv zeta.
  pose proof (after_send_later env c retries w) as Hs.
  pose proof (sent_requests_after_send env c retries w) as Hsent.
  pose proof (outgoing_fields env c (before_send env retries w)) as Hf.
  cbv zeta in Hf.
  destruct (before_send_later env retries w) as (Hh & _ & _).
  rewrite Hh in Hf.
  set (req := (outgoing env c (before_send env retries w)).1) in *.
  set (ws := after_send env c retries w) in *.
  assert (Hstop : forall w', later ws w' ->
            sent_requests (emitted ws w') = [] ->
            sent_requests (emitted w w') <> [] /\
            Forall (fun req =>
              req_data req = snapshot (heap w) (data c) /\
              req_params req = heap w !!! params c /\
              req_method req = method c /\ req_url req = url c)
              (sent_requests (emitted w w'))).
  { intros w' Hl He.
    rewrite (emitted_trans _ _ _ Hs Hl), sent_requests_app, Hsent, He.
    cbn [app]. split; [done|]. constructor; [exact Hf | constructor]. }
  assert (Hgo : forall x w', later ws w' ->
            sent_requests (emitted ws w') = [] -> 1 < retries ->
            let wf := (_request_with_retries env c (retries - 1)
                         (emit (Retrying x) w')).2 in
            sent_requests (emitted w wf) <> [] /\
            Forall (fun req =>
              req_data req = snapshot (heap w) (data c) /\
              req_params req = heap w !!! params c /\
              req_method req = method c /\ req_url req = url c)
              (sent_requests (emitted w wf))).
  { intros x w' Hl He Hgt wf.
    set (w2 := emit (Retrying x) w') in *.
    assert (Hl2 : later ws w2)
      by (eapply later_trans; [exact Hl | apply later_emit]).
    pose proof (request_with_retries_later env c (retries - 1) w2) as Hr.
    fold wf in Hr.
    destruct (IH w2 Hgt) as [_ IH2]. cbv zeta in IH2. fold wf in IH2.
    assert (Hh2 : heap w2 = heap w).
    { destruct Hl2 as (-> & _). by destruct Hs as (-> & _). }
    rewrite Hh2 in IH2.
    rewrite (emitted_trans w ws wf);
      [| exact Hs | eapply later_trans; [exact Hl2 | exact Hr]].
    rewrite sent_requests_app, Hsent. cbn [app]. split; [done|].
    constructor; [exact Hf|].
    rewrite (emitted_trans ws w2 wf Hl2 Hr), sent_requests_app.
    rewrite (emitted_trans ws w' w2 Hl (later_emit _ _)), sent_requests_app, He.
    unfold w2 at 1. by rewrite emitted_emit. }
  rewrite attempt_spec. cbv zeta. fold ws.
  destruct (attempt_outcome env c retries w) as [r|e].
  - destruct (status r =? codes.unauthorized).
    + destruct (has_refresh ws && (1 <? retries)) eqn:E.
      * apply andb_true_iff in E as [_ E%Z.ltb_lt].
        apply Hgo; [apply clear_later | by rewrite emitted_clear | done].
      * rewrite resolve_world.
        apply Hstop; [apply clear_later | by rewrite emitted_clear].
    + destruct ((1 <? retries) && _) eqn:E.
      * apply andb_true_iff in E as [E%Z.ltb_lt _].
        apply Hgo; [apply later_refl | by rewrite emitted_nil | done].
      * rewrite resolve_world.
        apply Hstop; [apply later_refl | by rewrite emitted_nil].
  - destruct ((1 <? retries) && _) eqn:E.
    + apply andb_true_iff in E as [E%Z.ltb_lt _].
      apply Hgo; [apply later_refl | by rewrite emitted_nil | done].
    + apply Hstop; [apply later_refl | by rewrite emitted_nil].
Qed.

(** A logical call seen as the attempts of the call that [request] built. *)
Lemma execute_spec env method_ path data_ files_ json_ params_ w :
  let cw := request env method_ path data_ files_ json_ params_ w in
  let res := execute env method_ path data_ files_ json_ params_ w in
  res = _request_with_retries env cw.1 DEFAULT_RETRIES cw.2 /\
  emitted w res.2 = emitted cw.2 res.2 /\
  heap res.2 = heap cw.2.
Proof.
  cbv zeta. unfold execute.
  pose proof (request_trace env method_ path data_ files_ json_ params_ w) as Ht.
  destruct (request env method_ path data_ files_ json_ params_ w) as [c0 w1].
  cbn [fst snd] in *. split; [done|]. split.
  - unfold emitted. by rewrite Ht.
  - by destruct (request_with_retries_later env c0 DEFAULT_RETRIES w1) as (-> & _).
Qed.

(** C7: a [dict] body reaches the wire, in every request of the call, as the
    list of its items with [api_type = json] added, sorted by key (the keys
    are distinct, so the list is determined); the caller's dictionary is the
    same after the call as before. *)
Theorem C7_mapping_body (env : Env) (method_ path : string)
    (files_ : option (list (string * string))) (json_ : option PyVal)
    (params_ : option loc) (w : World) (l : loc) (d : PyDict) :
  heap w !! l = Some d ->
  let res := execute env method_ path (BodyDict l) files_ json_ params_ w in
  let tagged := <["api_type"%string := PStr "json"]> d in
  let items := sorted_items tagged in
  let sent := sent_requests (emitted w res.2) in
  sent <> [] /\
  Forall (fun req => req_data req = PayItems items) sent /\
  StronglySorted item_le items /\ NoDup items.*1 /\
  (forall k v, (k, v) ∈ items <-> tagged !! k = Some v) /\
  ("api_type"%string, PStr "json") ∈ items /\
  heap res.2 !! l = Some d.
Proof.
  intros Hl res tagged items sent.
  destruct (execute_spec env method_ path (BodyDict l) files_ json_ params_ w)
    as (Hres & Hem & Hheap).
  destruct (request_heap env method_ path (BodyDict l) files_ json_ params_ w)
    as (Hpres & _).
  pose proof (request_data env method_ path files_ json_ params_ w l d Hl) as Hd.
  set (cw := request env method_ path (BodyDict l) files_ json_ params_ w) in *.
  destruct (sent_requests_spec env cw.1 DEFAULT_RETRIES cw.2) as [Hne Hall].
  rewrite <- Hres, <- Hem in Hne, Hall.
  destruct (sorted_items_spec tagged) as (Hsorted & Hnodup & Hmem).
  split; [exact Hne|]. split; [|split; [|split; [|split; [|split]]]].
  - eapply Forall_impl; [exact Hall|]. intros req (Hreq & _).
    by rewrite Hreq, Hd.
  - exact Hsorted.
  - exact Hnodup.
  - exact Hmem.
  - apply Hmem. subst tagged. apply lookup_insert_eq.
  - subst res. rewrite Hheap. by apply Hpres.
Qed.

Lemma C7_mapping_body_witness :
  heap (execute (Scenario.scripted []) "POST" "/api/submit"
          (BodyDict 1%positive) None None None (Scenario.start true)).2
    !! 1%positive = Some {[ "limit"%string := PInt 5 ]}.
Proof.
  exact (proj2 (proj2 (proj2 (proj2 (proj2 (proj2
    (C7_mapping_body (Scenario.scripted []) "POST" "/api/submit" None None None
       (Scenario.start true) 1%positive {[ "limit"%string := PInt 5 ]}
       eq_refl))))))).
Defined.

(** C8: whatever [params] the caller passes, [None] included, every request
    of the call carries the caller's parameters with [raw_json] set to 1
    (replacing a value the caller gave for that key, leaving the other keys);
    the dictionary that is updated is a new object, and every object that
    existed before the call, the caller's [params] among them, is the same
    after it. *)
Theorem C8_params (env : Env) (method_ path : string) (data_ : Body)
    (files_ : option (list (string * string))) (json_ : option PyVal)
    (params_ : option loc) (w : World) :
  let res := execute env method_ path data_ files_ json_ params_ w in
  let given := caller_params params_ (heap w) in
  let transmitted := <["raw_json"%string := PInt 1]> given in
  let sent := sent_requests (emitted w res.2) in
  sent <> [] /\
  Forall (fun req => req_params req = transmitted) sent /\
  transmitted !! "raw_json"%string = Some (PInt 1) /\
  (forall k, k <> "raw_json"%string -> transmitted !! k = given !! k) /\
  heap w !! params (request env method_ path data_ files_ json_ params_ w).1
    = None /\
  (forall l x, heap w !! l = Some x -> heap res.2 !! l = Some x).
Proof.
  intros res given transmitted sent.
  destruct (execute_spec env method_ path data_ files_ json_ params_ w)
    as (Hres & Hem & Hheap).
  destruct (request_heap env method_ path data_ files_ json_ params_ w)
    as (Hpres & Hpar).
  set (cw := request env method_ path data_ files_ json_ params_ w) in *.
  destruct (sent_requests_spec env cw.1 DEFAULT_RETRIES cw.2) as [Hne Hall].
  rewrite <- Hres, <- Hem in Hne, Hall.
  split; [exact Hne|]. split; [|split; [|split; [|split]]].
  - eapply Forall_impl; [exact Hall|]. intros req (_ & Hreq & _).
    by rewrite Hreq, Hpar.
  - apply lookup_insert_eq.
  - intros k Hk. by apply lookup_insert_ne.
  - subst cw. unfold request.
    destruct (copy_params_spec params_ (heap w)) as (F & _ & _).
    destruct (copy_params params_ (heap w)) as [p1 h1].
    by destruct (canonical_data data_ _).
  - intros l x Hx. subst res. rewrite Hheap. by apply Hpres.
Qed.

(** ** The theorems at concrete inputs *)

Lemma C3_status_table_witness :
  resolve (Scenario.scripted []) (Some (Scenario.reply 404 EmptyString))
    (Scenario.start false) =
  (inl (ResponseException NotFound (Scenario.reply 404 EmptyString)),
   Scenario.start false).
Proof.
  exact (proj1 (proj2 (C3_status_table (Scenario.scripted [])))
           (Scenario.reply 404 EmptyString) (Scenario.start false) NotFound eq_refl).
Defined.

Lemma C4_terminal_resolution_witness :
  let env := Scenario.scripted [Respond (Scenario.empty_reply 200)] in
  _request_with_retries env Scenario.get 3 (Scenario.start true) =
  (inr (PStr EmptyString), after_send env Scenario.get 3 (Scenario.start true)).
Proof.
  intros env.
  exact (proj1 (proj2 (proj2
    (C4_terminal_resolution env Scenario.get 3 (Scenario.start true)
       (Scenario.empty_reply 200) eq_refl eq_refl)))
    (or_introl eq_refl) eq_refl).
Defined.

Lemma C8_params_witness :
  let res := execute (Scenario.scripted []) "GET" "/api/v1/me" BodyNone None
               None (Some 1%positive) (Scenario.start true) in
  heap res.2 !! 1%positive = Some {[ "limit"%string := PInt 5 ]}.
Proof.
  intros res.
  exact (proj2 (proj2 (proj2 (proj2 (proj2
    (C8_params (Scenario.scripted []) "GET" "/api/v1/me" BodyNone None None
       (Some 1%positive) (Scenario.start true))))))
    1%positive {[ "limit"%string := PInt 5 ]} eq_refl).
Defined.

Lemma C9_retry_counter_witness :
  Forall (fun r => 1 <= r)
    (attempt_counters
       (emitted (Scenario.start true)
          (_request_with_retries
             (Scenario.scripted [Respond (Scenario.reply 503 EmptyString);
                                 Respond (Scenario.reply 503 EmptyString);
                                 Respond (Scenario.reply 503 EmptyString)])
             Scenario.get 3 (Scenario.start true)).2)).
Proof.
  refine (proj1 (proj1 (proj2 (proj2
    (C9_retry_counter
       (Scenario.scripted [Respond (Scenario.reply 503 EmptyString);
                           Respond (Scenario.reply 503 EmptyString);
                           Respond (Scenario.reply 503 EmptyString)])
       Scenario.get 3 (Scenario.start true)))) _)).
  lia.
Defined.

Lemma C10_terminal_response_present_witness :
  retry_condition 3 false None = true.
Proof.
  refine (proj1 (proj2
    (C10_terminal_response_present (Scenario.scripted []) Scenario.get))
    3 false _).
  lia.
Defined.

(** * Further properties of the session *)

(** ** Shared lemmas *)

Lemma attempt_outcome_index env c retries w :
  attempt_outcome env c retries w =
  http_request env (tally is_sent (trace w))
    (outgoing env c (before_send env retries w)).1.
Proof.
  unfold attempt_outcome.
  pose proof (outgoing_trace env c (before_send env retries w)) as Ht.
  destruct (outgoing env c (before_send env retries w)) as [req w1].
  cbn [fst snd] in *. rewrite Ht, before_send_trace, !tally_app.
  cbn [tally List.filter is_sent length].
  fold (tally is_sent (backoff_events env retries (emit (Attempt retries) w))).
  by rewrite tally_sent_backoff, tally_sent_header, !Nat.add_0_r.
Qed.

(** The events of a call whose first attempt is followed by a retry. *)
Lemma emitted_retry env c retries w x w' :
  later (after_send env c retries w) w' ->
  let w2 := emit (Retrying x) w' in
  emitted w (_request_with_retries env c (retries - 1) w2).2 =
  emitted w (after_send env c retries w) ++
  emitted (after_send env c retries w) w' ++
  Retrying x :: emitted w2 (_request_with_retries env c (retries - 1) w2).2.
Proof.
  intros Hl w2.
  pose proof (after_send_later env c retries w) as Hs.
  pose proof (request_with_retries_later env c (retries - 1) w2) as Hr.
  assert (Hl2 : later w' w2) by apply later_emit.
  rewrite (emitted_trans w (after_send env c retries w) _ Hs);
    [| eapply later_trans; [exact Hl | eapply later_trans; eauto]].
  rewrite (emitted_trans _ w' _ Hl); [| eapply later_trans; eauto].
  rewrite (emitted_trans w' w2 _ Hl2 Hr).
  subst w2. by rewrite emitted_emit.
Qed.

Lemma emitted_stop env c retries w w' :
  later (after_send env c retries w) w' ->
  emitted w w' =
  emitted w (after_send env c retries w) ++ emitted (after_send env c retries w) w'.
Proof. intros Hl. apply emitted_trans; [apply after_send_later | exact Hl]. Qed.

(** ** The outcome belongs to the last answer *)

Lemma tally_sent_length t : tally is_sent t = length (sent_requests t).
Proof.
  unfold tally, sent_requests. induction t as [|e t IH]; [done|].
  destruct e; cbn; by rewrite ?IH.
Qed.

(** After an attempt, and until the next request, the last answer is the
    answer to that attempt. *)
Lemma last_answer_after env c retries w w' :
  later (after_send env c retries w) w' ->
  sent_requests (emitted (after_send env c retries w) w') = [] ->
  last_answer env (trace w') = Some (attempt_outcome env c retries w) /\
  last (sent_requests (trace w')) =
    Some (outgoing env c (before_send env retries w)).1.
Proof.
  intros Hl He.
  pose proof (after_send_later env c retries w) as Hs.
  assert (Ht : sent_requests (trace w') =
               sent_requests (trace w) ++
               [(outgoing env c (before_send env retries w)).1]).
  { rewrite (later_emitted _ _ Hl), (later_emitted _ _ Hs).
    rewrite !sent_requests_app, He, sent_requests_after_send.
    by rewrite app_nil_r. }
  assert (Hlast : last (sent_requests (trace w')) =
                  Some (outgoing env c (before_send env retries w)).1)
    by (rewrite Ht; apply last_snoc).
  split; [|exact Hlast].
  unfold last_answer. rewrite Hlast, tally_sent_length, Ht, length_app.
  rewrite attempt_outcome_index, tally_sent_length. do 2 f_equal. cbn. lia.
Qed.

Lemma resolve_accounts env r w :
  accounts_for env (Respond r) (resolve env (Some r) w).1.
Proof.
  unfold resolve, accounts_for.
  destruct (STATUS_EXCEPTIONS !! status r) as [[kind|]|] eqn:Hk; cbn.
  - auto.
  - auto.
  - destruct (status r =? codes.no_content) eqn:H204; cbn.
    { apply Z.eqb_eq in H204. auto. }
    apply Z.eqb_neq in H204.
    destruct (bool_decide (status r ∈ SUCCESS_STATUSES)) eqn:Hok; cbn.
    + apply bool_decide_eq_true in Hok.
      destruct (bool_decide _); cbn; [auto|].
      destruct (json_loads env (body r)) as [v|] eqn:Hv; cbn; auto 10.
    + apply bool_decide_eq_false in Hok. auto.
Qed.

Lemma last_answer_decides (env : Env) (c : Call) (retries : Z) (w : World) :
  let res := _request_with_retries env c retries w in
  (exists o, last_answer env (trace res.2) = Some o /\
             accounts_for env o res.1) /\
  (forall e req, res.1 = inl (RequestException e req) ->
     last (sent_requests (trace res.2)) = Some req).
Proof.
  apply (attempts_ind env c (fun _ _ res =>
    (exists o, last_answer env (trace res.2) = Some o /\
               accounts_for env o res.1) /\
    (forall e req, res.1 = inl (RequestException e req) ->
       last (sent_requests (trace res.2)) = Some req))).
  clear retries w. intros retries w IH. rewrite attempt_spec. cbv zeta.
  set (ws := after_send env c retries w).
  assert (Hnil : last_answer env (trace ws) =
                   Some (attempt_outcome env c retries w) /\
                 last (sent_requests (trace ws)) =
                   Some (outgoing env c (before_send env retries w)).1).
  { apply last_answer_after; [apply later_refl | by rewrite emitted_nil]. }
  assert (Hclr : last_answer env (trace (Authorizer._clear_access_token ws)) =
                   Some (attempt_outcome env c retries w)).
  { apply last_answer_after; [apply clear_later | by rewrite emitted_clear]. }
  destruct (attempt_outcome env c retries w) as [r|e] eqn:Ho.
  - destruct (status r =? codes.unauthorized).
    + destruct (has_refresh ws && (1 <? retries)) eqn:E.
      * apply andb_true_iff in E as [_ E%Z.ltb_lt]. by apply IH.
      * split.
        -- exists (Respond r). rewrite resolve_world. split; [exact Hclr|].
           apply resolve_accounts.
        -- intros e req H. pose proof (resolve_accounts env r
             (Authorizer._clear_access_token ws)) as Ha.
           rewrite H in Ha. destruct Ha.
    + destruct ((1 <? retries) && _) eqn:E.
      * apply andb_true_iff in E as [E%Z.ltb_lt _]. by apply IH.
      * split.
        -- exists (Respond r). rewrite resolve_world. split; [apply Hnil|].
           apply resolve_accounts.
        -- intros e req H. pose proof (resolve_accounts env r ws) as Ha.
           rewrite H in Ha. destruct Ha.
  - destruct ((1 <? retries) && _) eqn:E.
    + apply andb_true_iff in E as [E%Z.ltb_lt _]. by apply IH.
    + split.
      * exists (HttpRaise e). split; [apply Hnil | done].
      * intros e' req [= <- <-]. apply Hnil.
Qed.

(** X1: the outcome of a call is the classification of the answer to the
    last request it sent, never of an earlier one; a re-raised transport
    exception holds that last request. *)
Theorem X1_outcome_of_last_answer (env : Env) (c : Call) (retries : Z)
    (w : World) :
  let res := _request_with_retries env c retries w in
  (exists o, last_answer env (trace res.2) = Some o /\
             accounts_for env o res.1) /\
  (forall e req, res.1 = inl (RequestException e req) ->
     last (sent_requests (trace res.2)) = Some req).
Proof. apply last_answer_decides. Qed.

(** ** Exhausting the budget *)

(** When every attempt that can be retried is, a budget of [n >= 1] is used
    up: [n] attempts with the counters [n, ..., 1], and [n - 1] retries. *)
Lemma budget_used_up env c (Inv : World -> Prop) :
  (forall retries w, Inv w -> 1 < retries ->
     exists x w',
       later (after_send env c retries w) w' /\
       census (emitted (after_send env c retries w) w') = ([], 0%nat, 0%nat) /\
       Inv (emit (Retrying x) w') /\
       _request_with_retries env c retries w =
       _request_with_retries env c (retries - 1) (emit (Retrying x) w')) ->
  forall n w, Inv w -> 1 <= n ->
    census (emitted w (_request_with_retries env c n w).2) =
    (countdown n (Z.to_nat n), Z.to_nat n, (Z.to_nat n - 1)%nat).
Proof.
  intros Hretry n w.
  apply (attempts_ind env c (fun n w res =>
    Inv w -> 1 <= n ->
    census (emitted w res.2) =
    (countdown n (Z.to_nat n), Z.to_nat n, (Z.to_nat n - 1)%nat))).
  clear n w. intros n w IH Hinv Hn.
  destruct (decide (n = 1)) as [-> | Hne].
  - destruct (attempts_census env c 1 w) as (k & Hk1 & Hk2 & Hc).
    assert (k = 1%nat) as -> by lia. exact Hc.
  - destruct (Hretry n w Hinv ltac:(lia)) as (x & w' & Hl & Hc & Hinv' & E).
    rewrite E, (census_retry_step env c n w x w' Hl Hc).
    rewrite (IH _ ltac:(lia) Hinv' ltac:(lia)).
    replace (Z.to_nat n) with (S (Z.to_nat (n - 1))) by lia.
    rewrite countdown_S. do 2 f_equal. lia.
Qed.

Lemma retry_status_is_server_error (s : Z) :
  s ∈ RETRY_STATUSES <->
  STATUS_EXCEPTIONS !! s = Some (ExceptionClass ServerError).
Proof.
  rewrite retry_statuses_elem. split.
  - intros [-> | [-> | [-> | [-> | [-> | ->]]]]]; reflexivity.
  - intros H. pose proof (status_exceptions_lookup s) as Hk. rewrite H in Hk.
    cbn in Hk. unfold error_kind_table in Hk.
    repeat match type of Hk with
           | context [?a =? ?b] =>
               destruct (Z.eqb_spec a b) as [->|?]; [auto 10; try discriminate|]
           end.
    cbn in Hk. discriminate.
Qed.

(** X2: when the HTTP client keeps failing with a retryable cause, a call
    with a budget of [n >= 1] sends exactly [n] requests, retries [n - 1]
    times, and raises the [RequestException] of the last failure. *)
Theorem X2_exhausted_by_transport_failures (env : Env) (c : Call) (n : Z)
    (w : World) :
  always_raises env -> 1 <= n ->
  let res := _request_with_retries env c n w in
  census (emitted w res.2) =
    (countdown n (Z.to_nat n), Z.to_nat n, (Z.to_nat n - 1)%nat) /\
  exists e req,
    res.1 = inl (RequestException e req) /\
    last_answer env (trace res.2) = Some (HttpRaise e) /\
    last (sent_requests (trace res.2)) = Some req /\
    isinstance e RETRY_EXCEPTIONS = true.
Proof.
  intros Hall Hn res. split.
  - apply (budget_used_up env c (fun _ => True)); [|done..].
    intros retries w0 _ Hgt.
    destruct (Hall (tally is_sent (trace w0))
                (outgoing env c (before_send env retries w0)).1) as (e & He & Hi).
    rewrite <- attempt_outcome_index in He.
    exists (inl e), (after_send env c retries w0).
    split; [apply later_refl|]. split; [by rewrite emitted_nil|].
    split; [done|]. by apply step_retry_failure.
  - destruct (last_answer_decides env c n w) as [(o & Ho & Ha) Hreq].
    fold res in Ho, Ha, Hreq.
    assert (exists e, o = HttpRaise e /\ isinstance e RETRY_EXCEPTIONS = true)
      as (e & -> & Hi).
    { unfold last_answer in Ho.
      destruct (last (sent_requests (trace res.2))) as [req|]; [|done].
      injection Ho as <-. destruct (Hall (tally is_sent (trace res.2) - 1)%nat req)
        as (e & -> & Hi). eauto. }
    destruct res.1 as [[kind r|e' req| |]|v] eqn:E;
      cbv beta iota delta [accounts_for] in Ha; try done.
    subst e'. exists e, req. split; [done|]. split; [done|].
    split; [by apply (Hreq e req) | done].
Qed.

(** X3: when every answer has a retryable status, a call with a budget of
    [n >= 1] sends exactly [n] requests, retries [n - 1] times, and raises
    ServerError with the last response. *)
Theorem X3_exhausted_by_retry_statuses (env : Env) (c : Call) (n : Z)
    (w : World) :
  always_retry_status env -> 1 <= n ->
  let res := _request_with_retries env c n w in
  census (emitted w res.2) =
    (countdown n (Z.to_nat n), Z.to_nat n, (Z.to_nat n - 1)%nat) /\
  exists r,
    res.1 = inl (ResponseException ServerError r) /\
    last_answer env (trace res.2) = Some (Respond r).
Proof.
  intros Hall Hn res. split.
  - apply (budget_used_up env c (fun _ => True)); [|done..].
    intros retries w0 _ Hgt.
    destruct (Hall (tally is_sent (trace w0))
                (outgoing env c (before_send env retries w0)).1) as (r & Hr & Hs).
    rewrite <- attempt_outcome_index in Hr.
    exists (inr (status r)), (after_send env c retries w0).
    split; [apply later_refl|]. split; [by rewrite emitted_nil|].
    split; [done|].
    rewrite attempt_spec, Hr. cbv zeta.
    assert ((status r =? codes.unauthorized) = false) as ->.
    { apply Z.eqb_neq. intros E. rewrite E in Hs.
      by apply unauthorized_not_retry_status. }
    rewrite bool_decide_eq_true_2 by done.
    by apply Z.ltb_lt in Hgt as ->.
  - destruct (last_answer_decides env c n w) as [(o & Ho & Ha) _].
    fold res in Ho, Ha.
    assert (exists r, o = Respond r /\ status r ∈ RETRY_STATUSES)
      as (r & -> & Hs).
    { unfold last_answer in Ho.
      destruct (last (sent_requests (trace res.2))) as [req|]; [|done].
      injection Ho as <-. destruct (Hall (tally is_sent (trace res.2) - 1)%nat req)
        as (r & -> & Hs). eauto. }
    apply retry_status_is_server_error in Hs.
    exists r. split; [|done].
    destruct res.1 as [[kind r'|e' req|s|]|v] eqn:E;
      cbv beta iota delta [accounts_for] in Ha.
    + destruct Ha as [-> [Hk | [[Hk _] | (_ & Hok & _)]]].
      * rewrite Hs in Hk. by injection Hk as <-.
      * rewrite Hs in Hk. discriminate.
      * exfalso. unfold SUCCESS_STATUSES, codes.created, codes.ok in Hok.
        rewrite elem_of_union, !elem_of_singleton in Hok.
        destruct Hok as [Hok | Hok]; rewrite Hok in Hs; discriminate.
    + done.
    + destruct Ha as (<- & Hk & _). rewrite Hs in Hk. discriminate.
    + done.
    + destruct Ha as [Hk _]. rewrite Hs in Hk. discriminate.
Qed.

Lemma tally_cleared_after_send env c retries w :
  tally is_cleared (emitted w (after_send env c retries w)) = 0%nat.
Proof.
  rewrite after_send_emitted. unfold backoff_events, header_events.
  destruct (retries <? 3); destruct (negb _ && _); reflexivity.
Qed.

Lemma tally_refreshed_after_send env c retries w :
  tally is_refreshed (emitted w (after_send env c retries w)) =
  tally is_refreshed (header_events env (before_send env retries w)).
Proof.
  rewrite after_send_emitted. unfold backoff_events.
  change (Attempt retries :: ?l) with ([Attempt retries] ++ l).
  rewrite !tally_app. destruct (retries <? 3); cbn; lia.
Qed.

Lemma has_refresh_later w w' : later w w' -> has_refresh w' = has_refresh w.
Proof. by intros (_ & H & _). Qed.

Lemma unauthorized_is_auth_error :
  STATUS_EXCEPTIONS !! codes.unauthorized = Some authorization_error_class.
Proof. reflexivity. Qed.

(** The token and the refreshes of a call that only ever sees 401. *)
Lemma unauthorized_run env c n w :
  always_unauthorized env -> has_refresh w = true -> 1 <= n ->
  let res := _request_with_retries env c n w in
  access_token res.2 = None /\
  tally is_cleared (emitted w res.2) = Z.to_nat n /\
  tally is_refreshed (emitted w res.2) =
    (Z.to_nat n - 1 +
     tally is_refreshed (header_events env (before_send env n w)))%nat.
Proof.
  intros Hall. revert n w.
  apply (attempts_ind env c (fun n w res =>
    has_refresh w = true -> 1 <= n ->
    access_token res.2 = None /\
    tally is_cleared (emitted w res.2) = Z.to_nat n /\
    tally is_refreshed (emitted w res.2) =
      (Z.to_nat n - 1 +
       tally is_refreshed (header_events env (before_send env n w)))%nat)).
  intros n w IH Hrf Hn.
  destruct (Hall (tally is_sent (trace w))
              (outgoing env c (before_send env n w)).1) as (r & Hr & Hs).
  rewrite <- attempt_outcome_index in Hr.
  destruct (step_unauthorized env c n w r Hr Hs) as [Hgo Hstop].
  set (ws := after_send env c n w) in *.
  set (wc := Authorizer._clear_access_token ws) in *.
  assert (Hlc : later ws wc) by apply clear_later.
  pose proof (tally_cleared_after_send env c n w) as Hc0.
  pose proof (tally_refreshed_after_send env c n w) as Hr0.
  fold ws in Hc0, Hr0.
  destruct (decide (n = 1)) as [-> | Hne].
  - destruct (Hstop ltac:(right; lia)) as [E _]. rewrite E. cbn [snd].
    split; [done|].
    rewrite (emitted_stop env c 1 w wc Hlc). fold ws.
    rewrite !tally_app, Hc0, Hr0. unfold wc. rewrite emitted_clear.
    split; [reflexivity | cbn; lia].
  - rewrite (Hgo Hrf ltac:(lia)).
    pose (w2 := emit (Retrying (inr 401)) wc).
    assert (Hrf2 : has_refresh w2 = true).
    { unfold w2, wc, ws.
      cbn [emit has_refresh Authorizer._clear_access_token with_token].
      by rewrite (has_refresh_later _ _ (after_send_later env c n w)). }
    destruct (IH w2 ltac:(lia) Hrf2 ltac:(lia)) as (Ht & Hcl & Hre).
    split; [exact Ht|].
    assert (Hh : header_events env (before_send env (n - 1) w2) =
                 [Refreshed (token_grant env
                    (tally is_refreshed (trace (before_send env (n - 1) w2))))]).
    { apply header_events_refresh.
      - by rewrite before_send_token.
      - by rewrite (has_refresh_later _ _ (before_send_later env (n - 1) w2)). }
    rewrite Hh in Hre.
    pose proof (emitted_retry env c n w (inr 401) wc Hlc) as Hem.
    cbv zeta in Hem. fold ws w2 in Hem. fold w2. rewrite Hem.
    change (Retrying (inr 401) :: ?l) with ([Retrying (inr 401)] ++ l).
    rewrite !tally_app, Hc0, Hr0, Hcl, Hre. unfold wc at 1 2.
    rewrite emitted_clear.
    cbn. split; lia.
Qed.

(** X4: when every answer is a 401 and the authorizer can refresh, a call
    with a budget of [n >= 1] sends [n] requests and clears the token after
    each; the token is refreshed before every request but possibly the
    first; the call raises AuthError with the last response and leaves the
    token cleared. *)
Theorem X4_exhausted_by_unauthorized (env : Env) (c : Call) (n : Z)
    (w : World) :
  always_unauthorized env -> has_refresh w = true -> 1 <= n ->
  let res := _request_with_retries env c n w in
  let evs := emitted w res.2 in
  census evs = (countdown n (Z.to_nat n), Z.to_nat n, (Z.to_nat n - 1)%nat) /\
  (exists r, res.1 = inl (ResponseException AuthError r) /\
             last_answer env (trace res.2) = Some (Respond r)) /\
  access_token res.2 = None /\
  tally is_cleared evs = Z.to_nat n /\
  tally is_refreshed evs =
    (Z.to_nat n - 1 +
     tally is_refreshed (header_events env (before_send env n w)))%nat.
Proof.
  intros Hall Hrf Hn res evs. split; [|split].
  - apply (budget_used_up env c (fun w => has_refresh w = true)); [|done..].
    intros retries w0 Hrf0 Hgt.
    destruct (Hall (tally is_sent (trace w0))
                (outgoing env c (before_send env retries w0)).1) as (r & Hr & Hs).
    rewrite <- attempt_outcome_index in Hr.
    destruct (step_unauthorized env c retries w0 r Hr Hs) as [Hgo _].
    exists (inr 401), (Authorizer._clear_access_token (after_send env c retries w0)).
    split; [apply clear_later|]. split; [by rewrite emitted_clear|].
    split; [|by apply Hgo].
    cbn [emit has_refresh Authorizer._clear_access_token with_token].
    by rewrite (has_refresh_later _ _ (after_send_later env c retries w0)).
  - destruct (last_answer_decides env c n w) as [(o & Ho & Ha) _].
    fold res in Ho, Ha.
    assert (exists r, o = Respond r /\ status r = codes.unauthorized)
      as (r & -> & Hs).
    { unfold last_answer in Ho.
      destruct (last (sent_requests (trace res.2))) as [req|]; [|done].
      injection Ho as <-. destruct (Hall (tally is_sent (trace res.2) - 1)%nat req)
        as (r & -> & Hs). eauto. }
    exists r. split; [|done].
    pose proof unauthorized_is_auth_error as Hk. rewrite <- Hs in Hk.
    destruct res.1 as [[kind r'|e' req|s|]|v] eqn:E;
      cbv beta iota delta [accounts_for] in Ha.
    + destruct Ha as [-> [Hk' | [[_ ->] | (_ & Hok & _)]]].
      * rewrite Hk in Hk'. discriminate.
      * done.
      * exfalso. unfold SUCCESS_STATUSES, codes.created, codes.ok in Hok.
        rewrite elem_of_union, !elem_of_singleton, Hs in Hok.
        unfold codes.unauthorized in Hok. lia.
    + done.
    + destruct Ha as (<- & Hk' & _). rewrite Hk in Hk'. discriminate.
    + done.
    + destruct Ha as [Hk' _]. rewrite Hk in Hk'. discriminate.
  - by apply unauthorized_run.
Qed.

(** ** The token *)

Lemma has_refresh_before_send env retries w :
  has_refresh (before_send env retries w) = has_refresh w.
Proof. apply has_refresh_later, before_send_later. Qed.

Lemma tally_cleared_retry env c retries w x w' :
  later (after_send env c retries w) w' ->
  let w2 := emit (Retrying x) w' in
  let final := (_request_with_retries env c (retries - 1) w2).2 in
  forall p, p (Retrying x) = false ->
    tally p (emitted w final) =
    (tally p (emitted w (after_send env c retries w)) +
     tally p (emitted (after_send env c retries w) w') +
     tally p (emitted w2 final))%nat.
Proof.
  intros Hl w2 final p Hp. subst final.
  pose proof (emitted_retry env c retries w x w' Hl) as Hem.
  cbv zeta in Hem. fold w2 in Hem. rewrite Hem.
  change (Retrying x :: ?l) with ([Retrying x] ++ l).
  rewrite !tally_app. unfold tally at 3. cbn. rewrite Hp. cbn. lia.
Qed.

(** As long as no answer is a 401, a token that stays valid for as many
    transport calls as the budget allows is the token of every request and
    of the end. *)
Lemma token_kept env c retries w t :
  never_unauthorized env -> access_token w = Some t ->
  token_outlasts w (Z.to_nat (Z.max 1 retries)) ->
  let res := _request_with_retries env c retries w in
  access_token res.2 = Some t /\
  tally is_refreshed (emitted w res.2) = 0%nat /\
  tally is_cleared (emitted w res.2) = 0%nat /\
  Forall (fun req => req_headers req =
                     [("Authorization", "bearer " +:+ t)]%string)
         (sent_requests (emitted w res.2)).
Proof.
  intros Hnever. revert retries w.
  apply (attempts_ind env c (fun retries w res =>
    access_token w = Some t ->
    token_outlasts w (Z.to_nat (Z.max 1 retries)) ->
    access_token res.2 = Some t /\
    tally is_refreshed (emitted w res.2) = 0%nat /\
    tally is_cleared (emitted w res.2) = 0%nat /\
    Forall (fun req => req_headers req =
                       [("Authorization", "bearer " +:+ t)]%string)
           (sent_requests (emitted w res.2)))).
  intros retries w IH Htok [_ Hlast].
  assert (Hvalid : Authorizer.is_valid w = true).
  { unfold Authorizer.is_valid. rewrite Htok. apply Nat.ltb_lt. lia. }
  pose proof (after_send_later env c retries w) as Hs.
  destruct (after_send_token_valid env c retries w t Htok Hvalid) as [Hts Hexp].
  pose proof (sent_after_send env c retries w) as Hnow.
  pose proof (tally_cleared_after_send env c retries w) as Hc0.
  pose proof (tally_refreshed_after_send env c retries w) as Hr0.
  rewrite header_events_valid in Hr0 by (by rewrite before_send_valid).
  pose proof (sent_requests_after_send env c retries w) as Hsent.
  destruct (outgoing_valid env c (before_send env retries w) t) as [Hh _];
    [by rewrite before_send_token | by rewrite before_send_valid |].
  set (ws := after_send env c retries w) in *.
  assert (Hstop : access_token ws = Some t /\
            tally is_refreshed (emitted w ws) = 0%nat /\
            tally is_cleared (emitted w ws) = 0%nat /\
            Forall (fun req => req_headers req =
                               [("Authorization", "bearer " +:+ t)]%string)
                   (sent_requests (emitted w ws))).
  { split; [done|]. split; [done|]. split; [done|].
    rewrite Hsent. by constructor. }
  assert (Hgo : forall x, 1 < retries ->
            let final := (_request_with_retries env c (retries - 1)
                            (emit (Retrying x) ws)).2 in
            access_token final = Some t /\
            tally is_refreshed (emitted w final) = 0%nat /\
            tally is_cleared (emitted w final) = 0%nat /\
            Forall (fun req => req_headers req =
                               [("Authorization", "bearer " +:+ t)]%string)
                   (sent_requests (emitted w final))).
  { intros x Hgt final.
    destruct (IH (emit (Retrying x) ws) Hgt Hts) as (Ht & Hre & Hcl & Hall).
    { split; [by (exists t)|]. unfold Authorizer.now in *.
      cbn [emit trace expires_at]. rewrite tally_app, Hnow, Hexp. cbn. lia. }
    fold final in Ht, Hre, Hcl, Hall.
    pose proof (tally_cleared_retry env c retries w x ws (later_refl _)) as Hsplit.
    cbv zeta in Hsplit. fold ws final in Hsplit.
    split; [exact Ht|].
    rewrite !Hsplit by done. fold ws. rewrite emitted_nil, Hr0, Hc0, Hre, Hcl.
    split; [done|]. split; [done|].
    pose proof (emitted_retry env c retries w x ws (later_refl _)) as Hem.
    cbv zeta in Hem. fold ws final in Hem.
    rewrite Hem, emitted_nil, !sent_requests_app, Hsent. cbn [app].
    constructor; [exact Hh | exact Hall]. }
  rewrite attempt_spec. cbv zeta. fold ws.
  destruct (attempt_outcome env c retries w) as [r|e] eqn:Ho.
  - rewrite attempt_outcome_index in Ho. apply Hnever in Ho.
    apply Z.eqb_neq in Ho as ->.
    destruct ((1 <? retries) && _) eqn:E.
    + apply andb_true_iff in E as [E%Z.ltb_lt _]. by apply Hgo.
    + by rewrite resolve_world.
  - destruct ((1 <? retries) && _) eqn:E.
    + apply andb_true_iff in E as [E%Z.ltb_lt _]. by apply Hgo.
    + exact Hstop.
Qed.

(** X5: as long as no answer is a 401, a cached token that does not expire
    during the call (it stays valid for as many transport calls as the
    budget allows) is never cleared or refreshed: every request carries it
    and it is still cached at the end. *)
Theorem X5_token_kept_without_unauthorized (env : Env) (c : Call)
    (retries : Z) (w : World) (t : string) :
  never_unauthorized env -> access_token w = Some t ->
  token_outlasts w (Z.to_nat (Z.max 1 retries)) ->
  let res := _request_with_retries env c retries w in
  access_token res.2 = Some t /\
  tally is_refreshed (emitted w res.2) = 0%nat /\
  tally is_cleared (emitted w res.2) = 0%nat /\
  Forall (fun req => req_headers req =
                     [("Authorization", "bearer " +:+ t)]%string)
         (sent_requests (emitted w res.2)).
Proof. apply token_kept. Qed.

Lemma header_events_incapable env w :
  has_refresh w = false -> header_events env w = [].
Proof. intros H. unfold header_events. by rewrite H, andb_false_r. Qed.

Lemma after_send_token_incapable env c retries w :
  has_refresh w = false ->
  access_token (after_send env c retries w) = access_token w.
Proof.
  intros H. rewrite after_send_token.
  unfold outgoing, _set_header_callback.
  rewrite has_refresh_before_send, H, andb_false_r. cbn.
  apply before_send_token.
Qed.

(** X6: an authorizer without refresh is never refreshed; at the end of a
    call its token is the one it started with, or none once a 401 was
    seen. *)
Theorem X6_never_refreshed_without_capability (env : Env) (c : Call)
    (retries : Z) (w : World) :
  has_refresh w = false ->
  let res := _request_with_retries env c retries w in
  tally is_refreshed (emitted w res.2) = 0%nat /\
  (access_token res.2 = access_token w /\
   tally is_cleared (emitted w res.2) = 0%nat \/
   access_token res.2 = None /\
   tally is_cleared (emitted w res.2) = 1%nat /\
   exists r, last_answer env (trace res.2) = Some (Respond r) /\
             status r = codes.unauthorized).
Proof.
  revert retries w.
  apply (attempts_ind env c (fun retries w res =>
    has_refresh w = false ->
    tally is_refreshed (emitted w res.2) = 0%nat /\
    (access_token res.2 = access_token w /\
     tally is_cleared (emitted w res.2) = 0%nat \/
     access_token res.2 = None /\
     tally is_cleared (emitted w res.2) = 1%nat /\
     exists r, last_answer env (trace res.2) = Some (Respond r) /\
               status r = codes.unauthorized))).
  intros retries w IH Hrf.
  pose proof (after_send_later env c retries w) as Hs.
  pose proof (after_send_token_incapable env c retries w Hrf) as Hts.
  pose proof (tally_cleared_after_send env c retries w) as Hc0.
  pose proof (tally_refreshed_after_send env c retries w) as Hr0.
  rewrite header_events_incapable in Hr0
    by (by rewrite has_refresh_before_send).
  assert (Hrfs : has_refresh (after_send env c retries w) = false)
    by (by rewrite (has_refresh_later _ _ Hs)).
  set (ws := after_send env c retries w) in *.
  assert (Hgo : forall x, 1 < retries ->
            let final := (_request_with_retries env c (retries - 1)
                            (emit (Retrying x) ws)).2 in
            tally is_refreshed (emitted w final) = 0%nat /\
            (access_token final = access_token w /\
             tally is_cleared (emitted w final) = 0%nat \/
             access_token final = None /\
             tally is_cleared (emitted w final) = 1%nat /\
             exists r, last_answer env (trace final) = Some (Respond r) /\
                       status r = codes.unauthorized)).
  { intros x Hgt final.
    destruct (IH (emit (Retrying x) ws) Hgt Hrfs) as (Hre & Hcases).
    fold final in Hre, Hcases.
    pose proof (tally_cleared_retry env c retries w x ws (later_refl _)) as Hsplit.
    cbv zeta in Hsplit. fold ws final in Hsplit.
    rewrite !Hsplit by done. fold ws. rewrite emitted_nil, Hr0, Hc0, Hre.
    split; [done|]. cbn [emit access_token] in Hcases. rewrite Hts in Hcases.
    destruct Hcases as [[-> ->] | (-> & -> & Hl)]; [left | right]; done. }
  rewrite attempt_spec. cbv zeta. fold ws.
  destruct (attempt_outcome env c retries w) as [r|e] eqn:Ho.
  - destruct (status r =? codes.unauthorized) eqn:H401.
    + rewrite Hrfs. cbn [andb]. rewrite resolve_world.
      assert (Hlc : later ws (Authorizer._clear_access_token ws))
        by apply clear_later.
      rewrite (emitted_stop env c retries w _ Hlc). fold ws.
      rewrite !tally_app, Hr0, Hc0, emitted_clear.
      split; [done|]. right. split; [done|]. split; [done|].
      exists r. split; [|by apply Z.eqb_eq].
      rewrite <- Ho. apply last_answer_after; [exact Hlc|].
      fold ws. by rewrite emitted_clear.
    + destruct ((1 <? retries) && _) eqn:E.
      * apply andb_true_iff in E as [E%Z.ltb_lt _]. by apply Hgo.
      * rewrite resolve_world. split; [done|]. left. done.
  - destruct ((1 <? retries) && _) eqn:E.
    + apply andb_true_iff in E as [E%Z.ltb_lt _]. by apply Hgo.
    + split; [done|]. left. done.
Qed.

(** ** The time spent in back-off *)

Lemma total_sleep_app evs1 evs2 :
  (total_sleep (evs1 ++ evs2) == total_sleep evs1 + total_sleep evs2)%Q.
Proof.
  induction evs1 as [|e evs1 IH]; cbn [app total_sleep].
  - lra.
  - destruct e; lra.
Qed.

Lemma total_sleep_header env w : total_sleep (header_events env w) = 0%Q.
Proof. unfold header_events. by destruct (negb _ && _). Qed.

Lemma tally_slept_header env w : tally is_slept (header_events env w) = 0%nat.
Proof. unfold header_events. by destruct (negb _ && _). Qed.

(** The sleep of one attempt. *)
Lemma sleep_after_send env c retries w :
  (forall n, unit_draw (random_random env n)) ->
  let evs := emitted w (after_send env c retries w) in
  (3 <= retries -> (total_sleep evs == 0)%Q /\ tally is_slept evs = 0%nat) /\
  (retries = 2 -> (0 <= total_sleep evs < 2)%Q /\ tally is_slept evs = 1%nat) /\
  (retries < 2 -> (2 <= total_sleep evs <= 4)%Q /\ tally is_slept evs = 1%nat).
Proof.
  intros Hrand evs. subst evs. rewrite after_send_emitted.
  change (Attempt retries :: ?l) with ([Attempt retries] ++ l).
  pose proof (total_sleep_app [Attempt retries]
    (backoff_events env retries (emit (Attempt retries) w) ++
     header_events env (before_send env retries w) ++
     [Sent (outgoing env c (before_send env retries w)).1])) as E1.
  pose proof (total_sleep_app
    (backoff_events env retries (emit (Attempt retries) w))
    (header_events env (before_send env retries w) ++
     [Sent (outgoing env c (before_send env retries w)).1])) as E2.
  pose proof (total_sleep_app
    (header_events env (before_send env retries w))
    [Sent (outgoing env c (before_send env retries w)).1]) as E3.
  rewrite total_sleep_header in E3. cbn [total_sleep] in E1, E3.
  rewrite !tally_app, tally_slept_header.
  unfold backoff_events in *.
  pose proof (Hrand (tally is_slept (trace (emit (Attempt retries) w)))) as Hu.
  split; [|split].
  - intros Hge. apply Z.ltb_ge in Hge. rewrite Hge in *.
    cbn [total_sleep] in E2. split; [lra | reflexivity].
  - intros ->. cbn [Z.ltb Z.compare Pos.compare Pos.compare_cont] in *.
    cbn [total_sleep] in E2.
    destruct (sleep_seconds_two _ Hu) as [_ ?]. split; [lra | reflexivity].
  - intros Hlt.
    assert ((retries <? 3) = true) as Hlt3 by (apply Z.ltb_lt; lia).
    rewrite Hlt3 in *. cbn [total_sleep] in E2.
    destruct (sleep_seconds_low retries _ ltac:(lia) Hu) as (_ & ? & _).
    split; [lra | reflexivity].
Qed.

Lemma sleep_bounded env c retries w :
  (forall n, unit_draw (random_random env n)) ->
  let evs := emitted w (_request_with_retries env c retries w).2 in
  (0 <= total_sleep evs)%Q /\
  (total_sleep evs <= (if (retries <=? 1)%Z then 4 else 6))%Q /\
  (total_sleep evs < 6)%Q /\
  (tally is_slept evs <= (if (retries <=? 1)%Z then 1 else 2))%nat.
Proof.
  intros Hrand. revert retries w.
  apply (attempts_ind env c (fun retries w res =>
    let evs := emitted w res.2 in
    (0 <= total_sleep evs)%Q /\
    (total_sleep evs <= (if (retries <=? 1)%Z then 4 else 6))%Q /\
    (total_sleep evs < 6)%Q /\
    (tally is_slept evs <= (if (retries <=? 1)%Z then 1 else 2))%nat)).
  intros retries w IH. cbv zeta.
  pose proof (after_send_later env c retries w) as Hs.
  destruct (sleep_after_send env c retries w Hrand) as (H3 & H2 & H1).
  cbv zeta in H3, H2, H1.
  set (ws := after_send env c retries w) in *.
  assert (Hstop : forall w', later ws w' ->
            total_sleep (emitted ws w') = 0%Q ->
            tally is_slept (emitted ws w') = 0%nat ->
            (0 <= total_sleep (emitted w w'))%Q /\
            (total_sleep (emitted w w') <= (if (retries <=? 1)%Z then 4 else 6))%Q /\
            (total_sleep (emitted w w') < 6)%Q /\
            (tally is_slept (emitted w w') <=
             (if (retries <=? 1)%Z then 1 else 2))%nat).
  { intros w' Hl Ht Hn. rewrite (emitted_stop env c retries w w' Hl). fold ws.
    pose proof (total_sleep_app (emitted w ws) (emitted ws w')) as E.
    rewrite Ht in E. rewrite tally_app, Hn.
    destruct (Z.leb_spec retries 1).
    - destruct (H1 ltac:(lia)) as [? ->].
      split; [lra|]. split; [lra|]. split; [lra | lia].
    - destruct (decide (retries = 2)) as [-> | Hne].
      + destruct (H2 eq_refl) as [? ->].
        split; [lra|]. split; [lra|]. split; [lra | lia].
      + destruct (H3 ltac:(lia)) as [? ->].
        split; [lra|]. split; [lra|]. split; [lra | lia]. }
  assert (Hgo : forall x w', later ws w' ->
            total_sleep (emitted ws w') = 0%Q ->
            tally is_slept (emitted ws w') = 0%nat ->
            1 < retries ->
            let final := (_request_with_retries env c (retries - 1)
                            (emit (Retrying x) w')).2 in
            (0 <= total_sleep (emitted w final))%Q /\
            (total_sleep (emitted w final) <=
             (if (retries <=? 1)%Z then 4 else 6))%Q /\
            (total_sleep (emitted w final) < 6)%Q /\
            (tally is_slept (emitted w final) <=
             (if (retries <=? 1)%Z then 1 else 2))%nat).
  { intros x w' Hl Ht Hn Hgt final.
    destruct (IH (emit (Retrying x) w') Hgt) as (Hlo & Hhi & Hlt6 & Hcnt).
    cbv zeta in Hlo, Hhi, Hlt6, Hcnt. fold final in Hlo, Hhi, Hlt6, Hcnt.
    pose proof (emitted_retry env c retries w x w' Hl) as Hem.
    cbv zeta in Hem. fold ws final in Hem. rewrite Hem.
    change (Retrying x :: ?l) with ([Retrying x] ++ l).
    pose proof (total_sleep_app (emitted w ws)
      (emitted ws w' ++ [Retrying x] ++
       emitted (emit (Retrying x) w') final)) as E1.
    pose proof (total_sleep_app (emitted ws w')
      ([Retrying x] ++ emitted (emit (Retrying x) w') final)) as E2.
    pose proof (total_sleep_app [Retrying x]
      (emitted (emit (Retrying x) w') final)) as E3.
    rewrite Ht in E2. cbn [total_sleep] in E3.
    rewrite !tally_app, Hn.
    assert ((retries <=? 1) = false) as -> by (apply Z.leb_gt; lia).
    destruct (decide (retries = 2)) as [-> | Hne].
    - destruct (H2 eq_refl) as [? ->].
      change (2 - 1 <=? 1) with true in Hhi, Hcnt.
      cbv beta iota in Hhi, Hcnt |- *.
      split; [lra|]. split; [lra|]. split; [lra|].
      change (tally is_slept [Retrying x]) with 0%nat. lia.
    - destruct (H3 ltac:(lia)) as [? ->].
      assert ((retries - 1 <=? 1) = false) as Hb by (apply Z.leb_gt; lia).
      rewrite Hb in Hhi, Hcnt. cbv beta iota in Hhi, Hcnt |- *.
      split; [lra|]. split; [lra|]. split; [lra|].
      change (tally is_slept [Retrying x]) with 0%nat. lia. }
  rewrite attempt_spec. cbv zeta. fold ws.
  destruct (attempt_outcome env c retries w) as [r|e].
  - destruct (status r =? codes.unauthorized).
    + destruct (has_refresh ws && (1 <? retries)) eqn:E.
      * apply andb_true_iff in E as [_ E%Z.ltb_lt].
        apply Hgo; [apply clear_later | by rewrite emitted_clear..| done].
      * rewrite resolve_world.
        apply Hstop; [apply clear_later | by rewrite emitted_clear..].
    + destruct ((1 <? retries) && _) eqn:E.
      * apply andb_true_iff in E as [E%Z.ltb_lt _].
        apply Hgo; [apply later_refl | by rewrite emitted_nil..| done].
      * rewrite resolve_world.
        apply Hstop; [apply later_refl | by rewrite emitted_nil..].
  - destruct ((1 <? retries) && _) eqn:E.
    + apply andb_true_iff in E as [E%Z.ltb_lt _].
      apply Hgo; [apply later_refl | by rewrite emitted_nil..| done].
    + apply Hstop; [apply later_refl | by rewrite emitted_nil..].
Qed.

(** X7: whatever the budget and the answers, a call sleeps at most twice in
    back-off and less than 6 seconds in total; a call that starts with at
    most one attempt remaining sleeps once, at least 2 and at most 4
    seconds.  The draws of [random.random()] are binary64 numbers in
    [0, 1). *)
Theorem X7_backoff_time_bounded (env : Env) (c : Call) (retries : Z)
    (w : World) :
  (forall n, unit_draw (random_random env n)) ->
  let evs := emitted w (_request_with_retries env c retries w).2 in
  (0 <= total_sleep evs < 6)%Q /\
  (tally is_slept evs <= 2)%nat /\
  (retries <= 1 -> (2 <= total_sleep evs <= 4)%Q /\ tally is_slept evs = 1%nat).
Proof.
  intros Hrand evs.
  destruct (sleep_bounded env c retries w Hrand) as (Hlo & _ & Hhi & Hcnt).
  fold evs in Hlo, Hhi, Hcnt.
  split; [|split].
  - split; [exact Hlo | exact Hhi].
  - destruct (retries <=? 1); lia.
  - intros Hle. subst evs. rewrite attempt_spec. cbv zeta.
    destruct (sleep_after_send env c retries w Hrand) as (_ & _ & H1).
    specialize (H1 ltac:(lia)). cbv zeta in H1.
    assert ((1 <? retries) = false) as Hlt by (apply Z.ltb_ge; lia).
    rewrite Hlt, andb_false_r. cbn [andb].
    set (ws := after_send env c retries w) in *.
    assert (Hclr : emitted w (Authorizer._clear_access_token ws) =
                   emitted w ws ++ [TokenCleared]).
    { rewrite (emitted_stop env c retries w _ (clear_later ws)). fold ws.
      by rewrite emitted_clear. }
    pose proof (total_sleep_app (emitted w ws) [TokenCleared]) as E.
    cbn [total_sleep] in E.
    destruct (attempt_outcome env c retries w) as [r|e].
    + destruct (status r =? codes.unauthorized); rewrite resolve_world.
      * rewrite Hclr, tally_app. destruct H1 as [? ->]. split; [lra | done].
      * exact H1.
    + exact H1.
Qed.

(** ** What every request looks like *)

(** A property of every request an attempt can build holds of every request
    a call sends. *)
Lemma sent_requests_all env c (Q : Request -> Prop) :
  (forall w', Q (outgoing env c w').1) ->
  forall retries w,
    Forall Q (sent_requests (emitted w (_request_with_retries env c retries w).2)).
Proof.
  intros HQ.
  apply (attempts_ind env c (fun retries w res =>
    Forall Q (sent_requests (emitted w res.2)))).
  intros retries w IH.
  pose proof (sent_requests_after_send env c retries w) as Hsent.
  set (ws := after_send env c retries w) in *.
  assert (Hstop : forall w', later ws w' ->
            sent_requests (emitted ws w') = [] ->
            Forall Q (sent_requests (emitted w w'))).
  { intros w' Hl He. rewrite (emitted_stop env c retries w w' Hl). fold ws.
    rewrite sent_requests_app, Hsent, He. cbn [app].
    constructor; [apply HQ | constructor]. }
  assert (Hgo : forall x w', later ws w' ->
            sent_requests (emitted ws w') = [] -> 1 < retries ->
            Forall Q (sent_requests (emitted w
              (_request_with_retries env c (retries - 1)
                 (emit (Retrying x) w')).2))).
  { intros x w' Hl He Hgt.
    pose proof (emitted_retry env c retries w x w' Hl) as Hem.
    cbv zeta in Hem. fold ws in Hem. rewrite Hem.
    change (Retrying x :: ?l) with ([Retrying x] ++ l).
    rewrite !sent_requests_app, Hsent, He. cbn [app sent_requests omap].
    constructor; [apply HQ | by apply IH]. }
  rewrite attempt_spec. cbv zeta. fold ws.
  destruct (attempt_outcome env c retries w) as [r|e].
  - destruct (status r =? codes.unauthorized).
    + destruct (has_refresh ws && (1 <? retries)) eqn:E.
      * apply andb_true_iff in E as [_ E%Z.ltb_lt].
        apply Hgo; [apply clear_later | by rewrite emitted_clear | done].
      * rewrite resolve_world.
        apply Hstop; [apply clear_later | by rewrite emitted_clear].
    + destruct ((1 <? retries) && _) eqn:E.
      * apply andb_true_iff in E as [E%Z.ltb_lt _].
        apply Hgo; [apply later_refl | by rewrite emitted_nil | done].
      * rewrite resolve_world.
        apply Hstop; [apply later_refl | by rewrite emitted_nil].
  - destruct ((1 <? retries) && _) eqn:E.
    + apply andb_true_iff in E as [E%Z.ltb_lt _].
      apply Hgo; [apply later_refl | by rewrite emitted_nil | done].
    + apply Hstop; [apply later_refl | by rewrite emitted_nil].
Qed.

(** X8: every request of a call is sent with redirects switched off, with
    the [json] argument of the call, and with exactly one header,
    [Authorization: bearer <token>]. *)
Theorem X8_every_request_shape (env : Env) (c : Call) (retries : Z)
    (w : World) :
  Forall (fun req =>
            req_allow_redirects req = false /\ req_json req = json c /\
            exists t, req_headers req =
                      [("Authorization", "bearer " +:+ t)]%string)
         (sent_requests (emitted w (_request_with_retries env c retries w).2)).
Proof.
  apply sent_requests_all. intros w'. unfold outgoing, _set_header_callback.
  cbn. eauto.
Qed.

(** X9: the [files] argument never reaches the transport: the same call
    with any other [files] has the same result and the same effects. *)
Theorem X9_files_never_sent (env : Env) (c : Call)
    (f : option (list (string * string))) (retries : Z) (w : World) :
  _request_with_retries env (with_files f c) retries w =
  _request_with_retries env c retries w.
Proof.
  apply (attempts_ind env c (fun retries w res =>
    _request_with_retries env (with_files f c) retries w = res)).
  clear retries w. intros retries w IH.
  rewrite (attempt_spec env c), (attempt_spec env (with_files f c)).
  change (attempt_outcome env (with_files f c) retries w)
    with (attempt_outcome env c retries w).
  change (after_send env (with_files f c) retries w)
    with (after_send env c retries w).
  change (outgoing env (with_files f c) (before_send env retries w))
    with (outgoing env c (before_send env retries w)).
  cbv zeta.
  destruct (attempt_outcome env c retries w) as [r|e].
  - destruct (status r =? codes.unauthorized).
    + destruct (has_refresh _ && (1 <? retries)) eqn:E; [|done].
      apply andb_true_iff in E as [_ E%Z.ltb_lt]. by apply IH.
    + destruct ((1 <? retries) && _) eqn:E; [|done].
      apply andb_true_iff in E as [E%Z.ltb_lt _]. by apply IH.
  - destruct ((1 <? retries) && _) eqn:E; [|done].
    apply andb_true_iff in E as [E%Z.ltb_lt _]. by apply IH.
Qed.

(** ** Answers that end the call at once *)

Lemma table_none_not_retry (s : Z) :
  STATUS_EXCEPTIONS !! s = None -> s ∉ RETRY_STATUSES.
Proof.
  intros Hk Hs. apply retry_status_is_server_error in Hs. congruence.
Qed.

Lemma ends_at_once env c retries w r :
  attempt_outcome env c retries w = Respond r ->
  status r <> codes.unauthorized -> status r ∉ RETRY_STATUSES ->
  let res := _request_with_retries env c retries w in
  res = resolve env (Some r) (after_send env c retries w) /\
  census (emitted w res.2) = ([retries], 1%nat, 0%nat) /\
  tally is_cleared (emitted w res.2) = 0%nat.
Proof.
  intros Ho Hne Hns res.
  assert (E : res = resolve env (Some r) (after_send env c retries w)).
  { subst res. rewrite attempt_spec, Ho. cbv zeta.
    apply Z.eqb_neq in Hne as ->.
    by rewrite bool_decide_eq_false_2, andb_false_r. }
  split; [exact E|]. rewrite E, resolve_world. split.
  - apply (census_stop env c); [apply later_refl | by rewrite emitted_nil].
  - apply tally_cleared_after_send.
Qed.

(** X10: an answer whose status is in the error table but is neither 401
    nor retryable (302, 400, 403, 404, 409, 413, 415, 451) ends the call at
    that attempt whatever budget remains: the mapped error is raised with
    the response after one request, without a retry and without touching
    the token; so a 403, unlike a 401, never clears the token. *)
Theorem X10_error_status_surfaces_at_once (env : Env) (c : Call)
    (retries : Z) (w : World) (r : Response) (kind : ErrorKind) :
  attempt_outcome env c retries w = Respond r ->
  error_kind_table (status r) = Some kind ->
  status r <> codes.unauthorized -> kind <> ServerError ->
  let res := _request_with_retries env c retries w in
  res = (inl (ResponseException kind r), after_send env c retries w) /\
  census (emitted w res.2) = ([retries], 1%nat, 0%nat) /\
  tally is_cleared (emitted w res.2) = 0%nat /\
  (status r = codes.forbidden -> kind = AuthError).
Proof.
  intros Ho Hk Hne Hsrv res.
  assert (Hns : status r ∉ RETRY_STATUSES).
  { intros Hs. apply retry_status_is_server_error in Hs.
    pose proof (status_exceptions_lookup (status r)) as Hl.
    rewrite Hs, Hk in Hl. cbn in Hl. congruence. }
  destruct (ends_at_once env c retries w r Ho Hne Hns) as (E & Hc & Hcl).
  fold res in E, Hc, Hcl.
  split; [|split; [exact Hc | split; [exact Hcl|]]].
  - rewrite E. by apply resolve_table_error.
  - intros Hs. rewrite Hs in Hk. cbn in Hk. congruence.
Qed.

(** X11: an answer whose status is neither in the error table nor 200, 201
    or 204 (a 301 or a 429, say) ends the call at that attempt, whatever
    budget remains, with an [AssertionError] naming the status. *)
Theorem X11_unexpected_status_asserts (env : Env) (c : Call) (retries : Z)
    (w : World) (r : Response) :
  attempt_outcome env c retries w = Respond r ->
  error_kind_table (status r) = None ->
  status r <> 200 -> status r <> 201 -> status r <> 204 ->
  let res := _request_with_retries env c retries w in
  res = (inl (AssertionError (status r)), after_send env c retries w) /\
  census (emitted w res.2) = ([retries], 1%nat, 0%nat).
Proof.
  intros Ho Hk H200 H201 H204 res.
  pose proof (table_none_lookup _ Hk) as Hl.
  assert (Hne : status r <> codes.unauthorized).
  { intros E. rewrite E in Hk. discriminate. }
  destruct (ends_at_once env c retries w r Ho Hne (table_none_not_retry _ Hl))
    as (E & Hc & _).
  fold res in E, Hc. split; [|exact Hc].
  rewrite E. unfold resolve. rewrite Hl.
  assert ((status r =? codes.no_content) = false) as ->
    by (by apply Z.eqb_neq).
  rewrite bool_decide_eq_false_2; [done|].
  unfold SUCCESS_STATUSES, codes.created, codes.ok.
  rewrite elem_of_union, !elem_of_singleton. lia.
Qed.

(** X12: a body that is not a [dict] (none, bytes, a list of pairs) is
    passed on and sent as it is: nothing is added to it and a list keeps its
    order. *)
Theorem X12_other_bodies_untouched (env : Env) (method_ path : string)
    (data_ : Body) (files_ : option (list (string * string)))
    (json_ : option PyVal) (params_ : option loc) (w : World) :
  (forall l, data_ <> BodyDict l) ->
  let res := execute env method_ path data_ files_ json_ params_ w in
  data (request env method_ path data_ files_ json_ params_ w).1 = data_ /\
  Forall (fun req => req_data req = snapshot ∅ data_)
         (sent_requests (emitted w res.2)).
Proof.
  intros Hnd res.
  assert (Hd : data (request env method_ path data_ files_ json_ params_ w).1
               = data_).
  { unfold request. destruct (copy_params params_ (heap w)) as [p1 h1].
    destruct data_ as [|s|l|its]; try reflexivity. by destruct (Hnd l). }
  split; [exact Hd|].
  destruct (execute_spec env method_ path data_ files_ json_ params_ w)
    as (Hres & Hem & _).
  set (cw := request env method_ path data_ files_ json_ params_ w) in *.
  destruct (sent_requests_spec env cw.1 DEFAULT_RETRIES cw.2) as [_ Hall].
  rewrite <- Hres, <- Hem in Hall.
  eapply Forall_impl; [exact Hall|]. intros req (Hreq & _).
  rewrite Hreq, Hd. destruct data_ as [|s|l|its]; try reflexivity.
  by destruct (Hnd l).
Qed.

(** ** The header callback *)

(** X13: [_set_header_callback] refreshes at most once, and only a token
    that is not valid; run again right away it changes nothing and builds the
    same header.  Without the refresh capability it never changes anything,
    and without a token either it sends the header [bearer None]. *)
Theorem X13_header_callback_idempotent (env : Env) (w : World) :
  let hw := _set_header_callback env w in
  _set_header_callback env hw.2 = hw /\
  (tally is_refreshed (emitted w hw.2) <= 1)%nat /\
  (Authorizer.is_valid w = true -> hw.2 = w) /\
  (has_refresh w = false -> hw.2 = w) /\
  (has_refresh w = false -> access_token w = None ->
   hw.1 = [("Authorization", "bearer None")]%string).
Proof.
  cbv zeta. unfold _set_header_callback. cbn [fst snd].
  destruct (negb (Authorizer.is_valid w) && has_refresh w) eqn:E.
  - apply andb_true_iff in E as [Ev%negb_true_iff Hrf].
    assert (Hv : Authorizer.is_valid (Authorizer.refresh env w) = true).
    { unfold Authorizer.is_valid, Authorizer.refresh, Authorizer.now.
      cbn [emit with_token access_token expires_at trace].
      rewrite tally_app. cbn. apply Nat.ltb_lt. lia. }
    rewrite Hv. cbn [negb andb].
    rewrite (emitted_app w _ [Refreshed (token_grant env
               (tally is_refreshed (trace w)))]) by reflexivity.
    split; [done|]. split; [cbn; lia|].
    split; [congruence|]. split; congruence.
  - rewrite E, emitted_nil.
    split; [done|]. split; [cbn; lia|]. split; [done|]. split; [done|].
    by intros _ ->.
Qed.

(** ** The status sets *)

(** X14: the retryable statuses are exactly the statuses that map to
    ServerError, so a call that uses up its budget on them always has an
    error to raise; 200, 201 and 204 are not in the error table. *)
Theorem X14_status_sets_consistent :
  (forall s, s ∈ RETRY_STATUSES <->
             STATUS_EXCEPTIONS !! s = Some (ExceptionClass ServerError)) /\
  (forall s, s ∈ SUCCESS_STATUSES -> STATUS_EXCEPTIONS !! s = None) /\
  STATUS_EXCEPTIONS !! codes.no_content = None /\
  (forall s, s ∈ RETRY_STATUSES -> s ∉ SUCCESS_STATUSES).
Proof.
  split; [apply retry_status_is_server_error|]. split; [|split].
  - intros s. unfold SUCCESS_STATUSES, codes.created, codes.ok.
    rewrite elem_of_union, !elem_of_singleton. by intros [-> | ->].
  - reflexivity.
  - intros s Hs. rewrite retry_statuses_elem in Hs.
    unfold SUCCESS_STATUSES, codes.created, codes.ok.
    rewrite elem_of_union, !elem_of_singleton. lia.
Qed.

(** ** A call that succeeds at once *)

(** X15: when the first answer to a call made through [request] is a 200 or
    201 with a JSON body, the call returns the decoded body after a single
    request, with no back-off sleep and no retry, and every dictionary that
    existed before is as it was. *)
Theorem X15_first_answer_success (env : Env) (method_ path : string)
    (data_ : Body) (files_ : option (list (string * string)))
    (json_ : option PyVal) (params_ : option loc) (w : World)
    (r : Response) (v : PyVal) :
  answers env (tally is_sent (trace w)) (Respond r) ->
  status r = 200 \/ status r = 201 ->
  headers_get "content-length" (headers r) <> Some "0"%string ->
  json_loads env (body r) = Some v ->
  let res := execute env method_ path data_ files_ json_ params_ w in
  res.1 = inr v /\
  census (emitted w res.2) = ([3], 1%nat, 0%nat) /\
  tally is_slept (emitted w res.2) = 0%nat /\
  (forall l x, heap w !! l = Some x -> heap res.2 !! l = Some x).
Proof.
  intros Ha Hs Hcl Hv res.
  destruct (execute_spec env method_ path data_ files_ json_ params_ w)
    as (Hres & Hem & Hheap).
  destruct (request_heap env method_ path data_ files_ json_ params_ w)
    as (Hpres & _).
  pose proof (request_trace env method_ path data_ files_ json_ params_ w) as Ht.
  set (cw := request env method_ path data_ files_ json_ params_ w) in *.
  fold res in Hres, Hem, Hheap. rewrite <- Ht in Ha.
  pose proof (attempt_outcome_at env cw.1 DEFAULT_RETRIES cw.2 _ Ha) as Ho.
  assert (Hne : status r <> codes.unauthorized)
    by (unfold codes.unauthorized; lia).
  assert (Hns : status r ∉ RETRY_STATUSES)
    by (rewrite retry_statuses_elem; lia).
  destruct (ends_at_once env cw.1 DEFAULT_RETRIES cw.2 r Ho Hne Hns)
    as (E & Hc & _).
  rewrite <- Hres in E, Hc. rewrite <- Hem in Hc.
  split; [|split; [exact Hc | split]].
  - rewrite E, resolve_success by done.
    by rewrite bool_decide_eq_false_2, Hv.
  - rewrite Hem, E, resolve_world, after_send_emitted.
    change (Attempt DEFAULT_RETRIES :: ?l) with ([Attempt DEFAULT_RETRIES] ++ l).
    rewrite !tally_app, tally_slept_header. reflexivity.
  - intros l x Hx. rewrite Hheap. by apply Hpres.
Qed.

(** ** The further properties at concrete inputs *)

Lemma X1_outcome_of_last_answer_witness :
  let env := Cases.steady (HttpRaise Scenario.invalid_url) in
  let res := _request_with_retries env Scenario.get 3 (Scenario.start true) in
  exists req,
    res.1 = inl (RequestException Scenario.invalid_url req) /\
    last (sent_requests (trace res.2)) = Some req.
Proof.
  intros env res. eexists. split; [reflexivity|].
  apply (proj2 (X1_outcome_of_last_answer env Scenario.get 3
                  (Scenario.start true)) Scenario.invalid_url).
  reflexivity.
Defined.

Lemma X2_exhausted_by_transport_failures_witness :
  let env := Cases.steady (HttpRaise Scenario.connection_error) in
  census (emitted (Scenario.start true)
            (_request_with_retries env Scenario.get 3 (Scenario.start true)).2)
  = ([3; 2; 1], 3%nat, 2%nat).
Proof.
  intros env.
  refine (proj1 (X2_exhausted_by_transport_failures env Scenario.get 3
                   (Scenario.start true) _ _)).
  - intros n req. exists Scenario.connection_error. split; reflexivity.
  - lia.
Defined.

Lemma X3_exhausted_by_retry_statuses_witness :
  let env := Cases.steady (Respond (Scenario.reply 503 "busy")) in
  census (emitted (Scenario.start true)
            (_request_with_retries env Scenario.get 3 (Scenario.start true)).2)
  = ([3; 2; 1], 3%nat, 2%nat).
Proof.
  intros env.
  refine (proj1 (X3_exhausted_by_retry_statuses env Scenario.get 3
                   (Scenario.start true) _ _)).
  - intros n req. exists (Scenario.reply 503 "busy"). split; [reflexivity|].
    apply retry_statuses_elem. cbn. lia.
  - lia.
Defined.

Lemma X4_exhausted_by_unauthorized_witness :
  let env := Cases.steady (Respond (Scenario.reply 401 "denied")) in
  access_token
    (_request_with_retries env Scenario.get 3 (Scenario.start true)).2 = None.
Proof.
  intros env.
  refine (proj1 (proj2 (proj2
    (X4_exhausted_by_unauthorized env Scenario.get 3 (Scenario.start true)
       _ _ _)))).
  - intros n req. exists (Scenario.reply 401 "denied"). split; reflexivity.
  - reflexivity.
  - lia.
Defined.

Lemma X5_token_kept_without_unauthorized_witness :
  let env := Cases.steady (Respond (Scenario.reply 503 "busy")) in
  access_token
    (_request_with_retries env Scenario.get 3 (Scenario.start true)).2
  = Some "stale"%string.
Proof.
  intros env.
  refine (proj1 (X5_token_kept_without_unauthorized env Scenario.get 3
                   (Scenario.start true) "stale" _ _ _)).
  - intros n req r [= <-]. cbn. unfold codes.unauthorized. lia.
  - reflexivity.
  - split; [by (exists "stale"%string) | cbn; lia].
Defined.

Lemma X6_never_refreshed_without_capability_witness :
  let env := Cases.steady (Respond (Scenario.reply 401 "denied")) in
  tally is_refreshed
    (emitted (Cases.no_token false)
       (_request_with_retries env Scenario.get 3 (Cases.no_token false)).2)
  = 0%nat.
Proof.
  intros env.
  exact (proj1 (X6_never_refreshed_without_capability env Scenario.get 3
                  (Cases.no_token false) eq_refl)).
Defined.

Lemma X7_backoff_time_bounded_witness :
  let env := Cases.steady (Respond (Scenario.reply 503 "busy")) in
  (tally is_slept
     (emitted (Scenario.start true)
        (_request_with_retries env Scenario.get 3 (Scenario.start true)).2)
   <= 2)%nat.
Proof.
  intros env.
  refine (proj1 (proj2 (X7_backoff_time_bounded env Scenario.get 3
                          (Scenario.start true) _))).
  intros n. split; [by vm_compute | split; [discriminate | reflexivity]].
Defined.

Lemma X10_error_status_surfaces_at_once_witness :
  let env := Cases.steady (Respond (Scenario.reply 403 "forbidden")) in
  tally is_cleared
    (emitted (Scenario.start true)
       (_request_with_retries env Scenario.get 3 (Scenario.start true)).2)
  = 0%nat.
Proof.
  intros env.
  refine (proj1 (proj2 (proj2
    (X10_error_status_surfaces_at_once env Scenario.get 3 (Scenario.start true)
       (Scenario.reply 403 "forbidden") AuthError eq_refl eq_refl _ _)))).
  - cbn. unfold codes.unauthorized. lia.
  - discriminate.
Defined.

Lemma X11_unexpected_status_asserts_witness :
  let env := Cases.steady (Respond (Scenario.reply 429 "slow down")) in
  (_request_with_retries env Scenario.get 3 (Scenario.start true)).1
  = inl (AssertionError 429).
Proof.
  intros env.
  refine (f_equal fst (proj1
    (X11_unexpected_status_asserts env Scenario.get 3 (Scenario.start true)
       (Scenario.reply 429 "slow down") eq_refl eq_refl _ _ _)));
    cbn; lia.
Defined.

Lemma X12_other_bodies_untouched_witness :
  data (request (Scenario.scripted []) "POST" "/api/comment"
          (BodyItems [("text"%string, PStr "hi"); ("api_type"%string, PStr "xml")])
          None None None (Scenario.start true)).1
  = BodyItems [("text"%string, PStr "hi"); ("api_type"%string, PStr "xml")].
Proof.
  refine (proj1 (X12_other_bodies_untouched (Scenario.scripted []) "POST"
                   "/api/comment" _ None None None (Scenario.start true) _)).
  intros l. discriminate.
Defined.

Lemma X13_header_callback_idempotent_witness :
  (_set_header_callback (Scenario.scripted []) (Cases.no_token false)).1
  = [("Authorization", "bearer None")]%string.
Proof.
  exact (proj2 (proj2 (proj2 (proj2
    (X13_header_callback_idempotent (Scenario.scripted [])
       (Cases.no_token false))))) eq_refl eq_refl).
Defined.

Lemma X14_status_sets_consistent_witness :
  STATUS_EXCEPTIONS !! 201 = None.
Proof.
  refine (proj1 (proj2 X14_status_sets_consistent) 201 _).
  unfold SUCCESS_STATUSES, codes.created, codes.ok.
  rewrite elem_of_union, !elem_of_singleton. lia.
Defined.

Lemma X15_first_answer_success_witness :
  let env := Cases.steady (Respond (Scenario.reply 201 "[]")) in
  (execute env "POST" "/api/submit" BodyNone None None None
     (Scenario.start true)).1 = inr (PList []).
Proof.
  intros env.
  refine (proj1 (X15_first_answer_success env "POST" "/api/submit" BodyNone
                   None None None (Scenario.start true)
                   (Scenario.reply 201 "[]") (PList []) _ _ _ eq_refl)).
  - intros req. reflexivity.
  - right. reflexivity.
  - discriminate.
Defined.
